(** * scikit-network: clustering metrics and the force-directed embedding

    A shallow embedding of [sknetwork/clustering/metrics.py] (functions
    [bimodularity], [modularity] and [cocitation_modularity]) together with
    the numpy / scipy.sparse operations they call, and a model of the [ForceAtlas2] embedding engine,
    whose code is known only through its specification and its tests.  The
    definitions come first, the properties established about them after. *)

From Stdlib Require Import ZArith String PrimFloat.
From stdpp Require Import base option list gmap strings.

Local Open Scope Z_scope.
Local Open Scope nat_scope.
Local Open Scope string_scope.
Local Open Scope float_scope.

(** ** Python exceptions and outcomes *)

(** The exceptions the module raises itself ([TypeError], [ValueError]) and
    the ones raised by the library calls it makes. *)
Inductive exn : Type :=
| TypeError (msg : string)
| ValueError (msg : string)
| AttributeError (msg : string)
| KeyError (key : Z)
| OverflowError (msg : string).

(** A call either returns a value or raises. *)
Inductive outcome (A : Type) : Type :=
| Return (a : A)
| Raise (e : exn).
Arguments Return {A} a.
Arguments Raise {A} e.

Definition returns {A} (o : outcome A) : Prop := exists a, o = Return a.
Definition raises {A} (o : outcome A) : Prop := exists e, o = Raise e.

Definition is_type_error {A} (o : outcome A) : bool :=
  match o with Raise (TypeError _) => true | _ => false end.
Definition is_value_error {A} (o : outcome A) : bool :=
  match o with Raise (ValueError _) => true | _ => false end.
Definition is_attribute_error {A} (o : outcome A) : bool :=
  match o with Raise (AttributeError _) => true | _ => false end.
Definition is_overflow_error {A} (o : outcome A) : bool :=
  match o with Raise (OverflowError _) => true | _ => false end.

#[export] Instance outcome_ret : MRet outcome := fun A a => Return a.
#[export] Instance outcome_bind : MBind outcome := fun A B k o =>
  match o with
  | Return a => k a
  | Raise e => Raise e
  end.

(** ** numpy: float vectors and integer label arrays *)

(** [np.float64] values are IEEE-754 binary64 numbers.  A 1-D float array is a
    list; [x.sum()] is taken to add from the left starting at [0.0].  numpy
    does not promise an order of additions (it adds long arrays pairwise), so
    the last bits of a sum of three or more terms are those of this order
    only; the properties below say when a call returns or raises and which
    calls give the same result, never the value of such a sum. *)
Definition vector := list float.

Definition np_sum (v : vector) : float := fold_left PrimFloat.add v 0.

Definition np_ones (n : nat) : vector := replicate n 1.

Definition np_arange (n : nat) : list Z := map Z.of_nat (seq 0 n).

(** [u.dot(v)] on 1-D arrays; numpy refuses operands of different length. *)
Definition vdot (u v : vector) : float := np_sum (zip_with PrimFloat.mul u v).

Definition np_dot (u v : vector) : outcome float :=
  if decide (length u = length v) then Return (vdot u v)
  else Raise (ValueError "shapes not aligned").

(** [v / s] for a 1-D array and a scalar. *)
Definition np_div_scalar (v : vector) (s : float) : vector :=
  map (fun x => x / s) v.

(** [np.linalg.norm(v)]: the Euclidean norm, the square root of the sum of
    the squares (added as [np_sum] adds). *)
Definition np_linalg_norm (v : vector) : float :=
  PrimFloat.sqrt (np_sum (map (fun x => x * x) v)).

(** [np.unique(labels)]: the sorted distinct values.  Each label is inserted
    at its place in an increasing list unless already there. *)
Fixpoint insert_unique (x : Z) (u : list Z) : list Z :=
  match u with
  | [] => [x]
  | y :: u' =>
      match Z.compare x y with
      | Lt => x :: u
      | Eq => u
      | Gt => y :: insert_unique x u'
      end
  end.

Definition np_unique (labels : list Z) : list Z := foldr insert_unique [] labels.

(** Position of [x] in [u] (the length of [u] when absent). *)
Fixpoint index_of (x : Z) (u : list Z) : nat :=
  match u with
  | [] => 0
  | y :: u' => if Z.eqb x y then 0 else S (index_of x u')
  end.

(** [np.unique(labels, return_inverse=True)]: the distinct values and, for
    every entry of [labels], the index of its value among them. *)
Definition np_unique_inverse (labels : list Z) : list Z * list Z :=
  let u := np_unique labels in
  (u, map (fun x => Z.of_nat (index_of x u)) labels).

(** [len(set(a))] for an integer array. *)
Definition len_set (a : list Z) : nat := length (remove_dups a).

(** A list of integers in increasing order, without repetition. *)
Fixpoint strictly_increasing (u : list Z) : Prop :=
  match u with
  | [] => True
  | x :: u' => Forall (Z.lt x) u' /\ strictly_increasing u'
  end.

(** ** Machine integers *)

(** The entries of an integer [np.ndarray], and the dimensions of an array,
    are 64-bit signed integers. *)
Definition int64_min : Z := (- 2 ^ 63)%Z.
Definition int64_max : Z := (2 ^ 63 - 1)%Z.

(** The result of an [np.int64] operation whose exact value is [z]: numpy
    keeps the low 64 bits (two's complement). *)
Definition wrap_int64 (z : Z) : Z := ((z - int64_min) mod 2 ^ 64 + int64_min)%Z.

(** ** scipy.sparse: matrices *)

(** A two-dimensional array, dense or sparse, is described by its shape and
    its rows of coefficients.  A sparse matrix stores the coefficients that
    are not zero, row after row, and its operations visit the stored
    coefficients only. *)
Record matrix : Type := Matrix {
  n_rows : nat;
  n_cols : nat;
  rows : list (list float)
}.

Definition shape (m : matrix) : nat * nat := (n_rows m, n_cols m).

Definition is_stored (x : float) : bool := negb (PrimFloat.eqb x 0).

(** [m.data] of a sparse matrix, and [m.data.sum()]. *)
Definition data (m : matrix) : vector := filter is_stored (concat (rows m)).
Definition data_sum (m : matrix) : float := np_sum (data m).

(** The product of a sparse row with a dense vector, and of a sparse row
    with a sparse column. *)
Definition sparse_dot_dense (r v : vector) : float :=
  np_sum (omap (fun '(a, x) => if is_stored a then Some (a * x) else None) (zip r v)).

Definition sparse_dot_sparse (r c : vector) : float :=
  np_sum (omap (fun '(a, b) => if is_stored a && is_stored b then Some (a * b) else None)
               (zip r c)).

(** [m.T] *)
Definition transpose (m : matrix) : matrix :=
  Matrix (n_cols m) (n_rows m)
         (map (fun j => map (fun r => nth j r 0) (rows m)) (seq 0 (n_cols m))).

(** [m.dot(v)] for a 1-D array [v]. *)
Definition mat_dot_vec (m : matrix) (v : vector) : outcome vector :=
  if decide (n_cols m = length v)
  then Return (map (fun r => sparse_dot_dense r v) (rows m))
  else Raise (ValueError "dimension mismatch").

(** [a.dot(b)] for two sparse matrices. *)
Definition mat_dot (a b : matrix) : outcome matrix :=
  if decide (n_cols a = n_rows b)
  then Return (Matrix (n_rows a) (n_cols b)
                 (map (fun r => map (fun c => sparse_dot_sparse r c) (rows (transpose b)))
                      (rows a)))
  else Raise (ValueError "dimension mismatch").

(** [a.multiply(b)]: the coefficient-wise product of two sparse matrices of
    the same shape, non-zero where both store a coefficient. *)
Definition mat_multiply (a b : matrix) : outcome matrix :=
  if decide (shape a = shape b)
  then Return (Matrix (n_rows a) (n_cols a)
                 (zip_with (zip_with (fun x y => if is_stored x && is_stored y
                                                 then x * y else 0))
                           (rows a) (rows b)))
  else Raise (ValueError "inconsistent shapes").

(** [m / s] for a sparse matrix and a scalar: scipy multiplies the stored
    coefficients by the reciprocal [1. / s]. *)
Definition sparse_div_scalar (m : matrix) (s : float) : matrix :=
  Matrix (n_rows m) (n_cols m)
         (map (map (fun x => if is_stored x then x * (1 / s) else x)) (rows m)).

(** The coefficient at [(i, j)] of the matrix given by coordinate triples:
    the values stored there, added up. *)
Definition coo_entry (data : vector) (row col : list Z) (i j : nat) : float :=
  np_sum (omap (fun '(x, (r, c)) =>
                  if decide (r = Z.of_nat i /\ c = Z.of_nat j) then Some x else None)
               (zip data (zip row col))).

Definition max_list (l : list Z) : Z := foldr Z.max 0%Z l.

(** [sparse.csr_matrix((data, (row, col)), shape=shp)] (and its [csc_matrix]
    twin).  Without [shape] the dimensions are one more than the largest
    indices: they cannot be inferred from empty index arrays, and a
    dimension that does not fit a 64-bit integer is refused with
    [OverflowError].  The three arrays must have the same length, and no
    index may reach the dimension or be negative. *)
Definition coo_matrix (data : vector) (row col : list Z) (shp : option (nat * nat))
  : outcome matrix :=
  '(n, k) ← match shp with
            | Some (n, k) => Return (n, k)
            | None =>
                if bool_decide (row = [] \/ col = [])
                then Raise (ValueError "cannot infer dimensions from zero sized index arrays")
                else if bool_decide (int64_max < max_list row + 1
                                     \/ int64_max < max_list col + 1)%Z
                then Raise (OverflowError "Python int too large to convert to C long")
                else Return (Z.to_nat (max_list row + 1), Z.to_nat (max_list col + 1))
            end;
  if negb (bool_decide (length row = length data /\ length col = length data))
  then Raise (ValueError "row, column, and data array must all be the same length")
  else if bool_decide (Exists (fun r => (Z.of_nat n <= r)%Z) row)
  then Raise (ValueError "row index exceeds matrix dimensions")
  else if bool_decide (Exists (fun c => (Z.of_nat k <= c)%Z) col)
  then Raise (ValueError "column index exceeds matrix dimensions")
  else if bool_decide (Exists (fun r => (r < 0)%Z) row)
  then Raise (ValueError "negative row index found")
  else if bool_decide (Exists (fun c => (c < 0)%Z) col)
  then Raise (ValueError "negative column index found")
  else
    Return (Matrix n k
              (map (fun i => map (coo_entry data row col i) (seq 0 k)) (seq 0 n))).

(** ** The arguments of the metrics *)

(** What a caller may pass as [adjacency]: the code tells apart an object
    whose type is exactly [sparse.csr_matrix], another scipy sparse matrix
    ([sparse.isspmatrix]; here one that keeps its values in a flat [.data]
    array, as csc and coo do), an object whose type is exactly [np.ndarray]
    (two-dimensional here), and everything else. *)
Inductive adjacency_arg : Type :=
| Csr (m : matrix)
| Sparse (m : matrix)
| Ndarray (m : matrix)
| OtherAdjacency.

(** What a caller may pass as [partition]: a [dict] from node to community,
    an [np.ndarray] of community labels, or anything else.  The labels of an
    array are 64-bit integers, between [int64_min] and [int64_max]; those of
    a [dict] are Python integers. *)
Inductive partition_arg : Type :=
| Dict (d : gmap Z Z)
| LabelArray (labels : list Z)
| OtherPartition.

(** [sparse.csr_matrix(m)]: conversion keeps the shape and the coefficients. *)
Definition csr_matrix (m : matrix) : matrix := m.

(** ** [bimodularity] (metrics.py, lines 13-62) *)

(** [biadjacency.shape] *)
Definition arg_shape (a : adjacency_arg) : outcome (nat * nat) :=
  match a with
  | Csr m | Sparse m | Ndarray m => Return (shape m)
  | OtherAdjacency => Raise (AttributeError "object has no attribute 'shape'")
  end.

(** [biadjacency.data.sum()]: [.data] of a sparse matrix is the array of its
    stored coefficients; [.data] of an [np.ndarray] is a [memoryview], which
    has no [sum]. *)
Definition arg_data_sum (a : adjacency_arg) : outcome float :=
  match a with
  | Csr m | Sparse m => Return (data_sum m)
  | Ndarray _ => Raise (AttributeError "'memoryview' object has no attribute 'sum'")
  | OtherAdjacency => Raise (AttributeError "object has no attribute 'data'")
  end.

(** The coefficients behind an argument that got past [arg_data_sum]. *)
Definition arg_matrix (a : adjacency_arg) : outcome matrix :=
  match a with
  | Csr m | Sparse m | Ndarray m => Return m
  | OtherAdjacency => Raise (AttributeError "object has no attribute 'dot'")
  end.

Definition bimodularity (biadjacency : adjacency_arg)
    (sample_labels feature_labels : list Z) (resolution : float) : outcome float :=
  '(n_samples, n_features) ← arg_shape biadjacency;
  let one_samples := np_ones n_samples in
  let one_features := np_ones n_features in
  total_weight ← arg_data_sum biadjacency;
  b ← arg_matrix biadjacency;
  bf ← mat_dot_vec b one_features;
  let sample_weights := np_div_scalar bf total_weight in
  bs ← mat_dot_vec (transpose b) one_samples;
  let features_weights := np_div_scalar bs total_weight in

  let '(_, sample_labels) := np_unique_inverse sample_labels in
  let '(_, feature_labels) := np_unique_inverse feature_labels in
  let n_clusters := Nat.max (len_set sample_labels) (len_set feature_labels) in

  sample_membership ←
    coo_matrix one_samples (np_arange n_samples) sample_labels
               (Some (n_samples, n_clusters));
  feature_membership ←
    coo_matrix one_features (np_arange n_features) feature_labels
               (Some (n_features, n_clusters));

  bm ← mat_dot b feature_membership;
  prod ← mat_multiply sample_membership bm;
  let fit := data_sum prod / total_weight in
  sw ← mat_dot_vec (transpose sample_membership) sample_weights;
  fw ← mat_dot_vec (transpose feature_membership) features_weights;
  div ← np_dot sw fw;

  Return (fit - resolution * div).

(** ** [modularity] (metrics.py, lines 65-122) *)

(** The local variables of a call of [modularity]: a variable is [None]
    until the statement that assigns it has run. *)
Record frame : Type := Frame {
  adj_matrix : option matrix;
  n_nodes : option nat;
  m_nodes : option nat;
  norm_adj : option matrix;
  probs : option vector;
  labels : option (list Z)
}.

Definition empty_frame : frame := Frame None None None None None None.

(** The body of the function runs over its frame and ends by returning or
    raising; the frame it leaves tells how far it got. *)
Definition py (A : Type) : Type := frame -> frame * outcome A.

#[export] Instance py_ret : MRet py := fun A a fr => (fr, Return a).
#[export] Instance py_bind : MBind py := fun A B k c fr =>
  match c fr with
  | (fr', Return a) => k a fr'
  | (fr', Raise e) => (fr', Raise e)
  end.

Definition raise {A} (e : exn) : py A := fun fr => (fr, Raise e).

(** A library call, which does not touch the frame. *)
Definition call {A} (o : outcome A) : py A := fun fr => (fr, o).

(** Assignments. *)
Definition set_adj_matrix (v : matrix) : py unit := fun fr =>
  (Frame (Some v) (n_nodes fr) (m_nodes fr) (norm_adj fr) (probs fr) (labels fr), Return tt).
Definition set_n_nodes_m_nodes (v : nat * nat) : py unit := fun fr =>
  (Frame (adj_matrix fr) (Some v.1) (Some v.2) (norm_adj fr) (probs fr) (labels fr), Return tt).
Definition set_norm_adj (v : matrix) : py unit := fun fr =>
  (Frame (adj_matrix fr) (n_nodes fr) (m_nodes fr) (Some v) (probs fr) (labels fr), Return tt).
Definition set_probs (v : vector) : py unit := fun fr =>
  (Frame (adj_matrix fr) (n_nodes fr) (m_nodes fr) (norm_adj fr) (Some v) (labels fr), Return tt).
Definition set_labels (v : list Z) : py unit := fun fr =>
  (Frame (adj_matrix fr) (n_nodes fr) (m_nodes fr) (norm_adj fr) (probs fr) (Some v), Return tt).

(** [[partition[i] for i in range(n_nodes)]]: a missing key raises
    [KeyError]. *)
Fixpoint dict_labels (d : gmap Z Z) (keys : list Z) : outcome (list Z) :=
  match keys with
  | [] => Return []
  | i :: keys' =>
      match d !! i with
      | Some c => cs ← dict_labels d keys'; Return (c :: cs)
      | None => Raise (KeyError i)
      end
  end.

Definition modularity_body (adjacency : adjacency_arg) (partition : partition_arg)
    (resolution : float) (directed : bool) : py float :=
  (* lines 91-97 *)
  adj ← match adjacency with
        | Csr m => mret m
        | Sparse m | Ndarray m => mret (csr_matrix m)
        | OtherAdjacency =>
            raise (TypeError "The argument must be a NumPy array or a SciPy Sparse matrix.")
        end;
  _ ← set_adj_matrix adj;
  (* lines 99-101 *)
  let '(n, m) := shape adj in
  _ ← set_n_nodes_m_nodes (n, m);
  if negb (bool_decide (n = m))
  then raise (ValueError "The adjacency must be a square matrix.")
  else
    (* lines 102-103 *)
    let norm := sparse_div_scalar adj (data_sum adj) in
    _ ← set_norm_adj norm;
    p ← call (mat_dot_vec norm (np_ones n));
    _ ← set_probs p;
    (* lines 105-110 *)
    lbl ← match partition with
          | Dict d => call (dict_labels d (np_arange n))
          | LabelArray a => mret a
          | OtherPartition =>
              raise (TypeError "The partition must be a dictionary or a NumPy array.")
          end;
    _ ← set_labels lbl;
    (* lines 112-122 *)
    if directed
    then call (bimodularity adjacency lbl lbl resolution)
    else
      let row := np_arange n in
      let col := lbl in
      let data := np_ones n in
      membership ← call (coo_matrix data row col None);
      nm ← call (mat_dot norm membership);
      prod ← call (mat_multiply membership nm);
      fitv ← call (mat_dot_vec prod (np_ones (shape membership).2));
      let fit := np_sum fitv in
      mp ← call (mat_dot_vec (transpose membership) p);
      let diversity := (let x := np_linalg_norm mp in x * x) in
      mret (fit - resolution * diversity).

(** Calling [modularity]: the body runs on a fresh frame. *)
Definition modularity_run (adjacency : adjacency_arg) (partition : partition_arg)
    (resolution : float) (directed : bool) : frame * outcome float :=
  modularity_body adjacency partition resolution directed empty_frame.

(** What the caller sees. *)
Definition modularity (adjacency : adjacency_arg) (partition : partition_arg)
    (resolution : float) (directed : bool) : outcome float :=
  (modularity_run adjacency partition resolution directed).2.

(** Labels as [modularity] reads them from its [partition] argument, for a
    graph of [n] nodes (lines 105-110, without the [TypeError] branch). *)
Definition partition_labels (n : nat) (partition : partition_arg) : option (list Z) :=
  match partition with
  | Dict d => match dict_labels d (np_arange n) with Return l => Some l | Raise _ => None end
  | LabelArray a => Some a
  | OtherPartition => None
  end.

(** A numpy array has as many rows, and each row as many coefficients, as its
    shape says. *)
Definition well_formed (m : matrix) : Prop :=
  length (rows m) = n_rows m /\ Forall (fun r => length r = n_cols m) (rows m).

(** A partition of the [n] nodes of a graph: one community label, a
    non-negative integer, for each of the nodes [0 .. n-1]. *)
Definition valid_partition (n : nat) (partition : partition_arg) : Prop :=
  match partition with
  | Dict d => forall i, i < n -> exists c, d !! Z.of_nat i = Some c /\ (0 <= c)%Z
  | LabelArray a => length a = n /\ Forall (fun c => (0 <= c)%Z) a
  | OtherPartition => False
  end.

(** A partition of the [n] nodes of a graph into communities numbered from
    zero: every node has a label among [0 .. n-1].  Labels that form a
    contiguous range starting at zero are of this kind, there being no more
    communities than nodes. *)
Definition community_partition (n : nat) (partition : partition_arg) : Prop :=
  match partition with
  | Dict d =>
      forall i, i < n -> exists c, d !! Z.of_nat i = Some c /\ (0 <= c < Z.of_nat n)%Z
  | LabelArray a => length a = n /\ Forall (fun c => (0 <= c < Z.of_nat n)%Z) a
  | OtherPartition => False
  end.

(** A relabeling [f] keeps the order of the labels in [l] (and so keeps
    distinct labels distinct). *)
Definition order_preserving_on (l : list Z) (f : Z -> Z) : Prop :=
  forall x y, x ∈ l -> y ∈ l -> (x < y)%Z -> (f x < f y)%Z.

(** The matrix behind an [adjacency] argument the code recognizes. *)
Definition as_matrix (a : adjacency_arg) : option matrix :=
  match a with
  | Csr m | Sparse m | Ndarray m => Some m
  | OtherAdjacency => None
  end.

(** Lines 91-103 on a recognised square matrix [a]: the frame left by the
    conversion, the shape check and the normalisation. *)
Definition normalised_frame (a : matrix) : frame :=
  Frame (Some a) (Some (n_rows a)) (Some (n_cols a))
        (Some (sparse_div_scalar a (data_sum a)))
        (Some (map (fun r => sparse_dot_dense r (np_ones (n_rows a)))
                   (rows (sparse_div_scalar a (data_sum a)))))
        None.

(** Small inputs used in the examples below. *)
Definition two_by_two : matrix := Matrix 2 2 [[0; 1]; [1; 0]].
Definition one_by_two : matrix := Matrix 1 2 [[1; 2]].
Definition two_by_three : matrix := Matrix 2 3 [[1; 0; 2]; [0; 3; 1]].
Definition small_graph : matrix :=
  Matrix 5 5 [[0; 1; 1; 0; 0]; [1; 0; 1; 0; 0]; [1; 1; 0; 1; 0]; [0; 0; 1; 0; 1]; [0; 0; 0; 1; 0]].

(** ** [cocitation_modularity] (metrics.py, lines 125-178) *)

(** [labels.max()]: numpy refuses to reduce an empty array.  The maximum of
    an integer array is an [np.int64]. *)
Definition np_max (l : list Z) : outcome Z :=
  match l with
  | [] =>
      Raise (ValueError
               "zero-size array to reduction operation maximum which has no identity")
  | x :: l' => Return (foldr Z.max x l')
  end.

(** A dimension given in [shape=...]: scipy refuses a negative one. *)
Definition shape_dim (z : Z) : outcome nat :=
  if (z <? 0)%Z then Raise (ValueError "'shape' elements cannot be negative")
  else Return (Z.to_nat z).

(** [np.sqrt(v)] *)
Definition np_sqrt (v : vector) : vector := map PrimFloat.sqrt v.

(** [sparse.diags(v, shape=(n, n), format='csr')], for a diagonal [v] of
    [n] entries (the only way the code calls it): the matrix with [v] on
    its diagonal; the conversion to csr keeps the entries that are not
    zero. *)
Definition sparse_diags (v : vector) (n : nat) : matrix :=
  Matrix n n (map (fun i => map (fun j => if (i =? j)%nat then nth i v 0 else 0)
                                (seq 0 n))
                  (seq 0 n)).

(** [m.data = 1 / m.data]: every stored coefficient is replaced by its
    reciprocal. *)
Definition reciprocal_data (m : matrix) : matrix :=
  Matrix (n_rows m) (n_cols m)
         (map (map (fun x => if is_stored x then 1 / x else x)) (rows m)).

Definition cocitation_modularity (adjacency : adjacency_arg) (partition : partition_arg)
    (resolution : float) : outcome float :=
  (* lines 147-153 *)
  adj ← match adjacency with
        | Csr m => Return m
        | Sparse m | Ndarray m => Return (csr_matrix m)
        | OtherAdjacency =>
            Raise (TypeError "The argument must be a NumPy array or a SciPy Sparse matrix.")
        end;
  (* lines 155-158 *)
  let '(n_samples, n_features) := shape adj in
  let total_weight := data_sum adj in
  ap ← mat_dot_vec adj (np_ones n_samples);
  let pou := np_div_scalar ap total_weight in
  din ← mat_dot_vec (transpose adj) (np_ones n_features);
  (* lines 160-164 *)
  let dhin := reciprocal_data (sparse_diags (np_sqrt din) n_features) in
  ad ← mat_dot adj dhin;
  let normalized_adjacency := transpose ad in
  (* lines 166-171 *)
  lbl ← match partition with
        | Dict d => dict_labels d (np_arange n_samples)
        | LabelArray a => Return a
        | OtherPartition =>
            Raise (TypeError "The partition must be a dictionary or a NumPy array.")
        end;
  (* lines 173-178; [labels.max() + 1] is an addition of 64-bit integers *)
  lmax ← np_max lbl;
  k ← shape_dim (wrap_int64 (lmax + 1));
  membership ← coo_matrix (np_ones n_samples) (np_arange n_samples) lbl
                          (Some (n_samples, k));
  nm ← mat_dot normalized_adjacency membership;
  let fit := np_sum (map (fun x => x * x) (data nm)) / total_weight in
  mp ← mat_dot_vec (transpose membership) pou;
  let diversity := (let x := np_linalg_norm mp in x * x) in
  Return (fit - resolution * diversity).

(** Lines 115-122 of [modularity], the score of the undirected case, from
    the normalised adjacency [norm], the vector [p] of its row sums, the
    number [n] of nodes and the labels. *)
Definition undirected_score (norm : matrix) (p : vector) (n : nat) (lbl : list Z)
    (resolution : float) : outcome float :=
  membership ← coo_matrix (np_ones n) (np_arange n) lbl None;
  nm ← mat_dot norm membership;
  prod ← mat_multiply membership nm;
  fitv ← mat_dot_vec prod (np_ones (shape membership).2);
  mp ← mat_dot_vec (transpose membership) p;
  Return (np_sum fitv - resolution * (let x := np_linalg_norm mp in x * x)).

(** Lines 105-110 of [modularity] (166-171 of [cocitation_modularity]):
    the labels read from the [partition] argument of a graph of [n] nodes. *)
Definition read_partition (n : nat) (partition : partition_arg) : outcome (list Z) :=
  match partition with
  | Dict d => dict_labels d (np_arange n)
  | LabelArray a => Return a
  | OtherPartition =>
      Raise (TypeError "The partition must be a dictionary or a NumPy array.")
  end.

(** Lines 173-178 of [cocitation_modularity], the score, from the
    normalised adjacency, the vector [pou], the total weight, the number of
    samples and the labels; [labels.max() + 1] is an addition of 64-bit
    integers. *)
Definition cocitation_score (normalized_adjacency : matrix) (pou : vector)
    (total_weight : float) (n_samples : nat) (lbl : list Z) (resolution : float)
  : outcome float :=
  lmax ← np_max lbl;
  k ← shape_dim (wrap_int64 (lmax + 1));
  membership ← coo_matrix (np_ones n_samples) (np_arange n_samples) lbl
                          (Some (n_samples, k));
  nm ← mat_dot normalized_adjacency membership;
  mp ← mat_dot_vec (transpose membership) pou;
  Return (np_sum (map (fun x => x * x) (data nm)) / total_weight
          - resolution * (let x := np_linalg_norm mp in x * x)).


(** * The force-directed embedding engine (spec, section 4.3) *)

Module ForceAtlas.

(** Modelled from the spec: the errors of the taxonomy of section 7 that the
    embedding engine raises; the class [ForceAtlas2] of
    [sknetwork/embedding/force_atlas.py] is not among the sources, only its
    tests are. *)
Inductive error : Type :=
| InputShapeError
| ConfigurationConflictError.

(** Modelled from the spec: both errors reach the caller as Python's
    [ValueError], which is what the tests expect
    (test_force_atlas.py, lines 45-48). *)
Definition as_exception (e : error) : exn :=
  match e with
  | InputShapeError => ValueError "InputShapeError"
  | ConfigurationConflictError => ValueError "ConfigurationConflictError"
  end.

(** What a call of the engine yields. *)
Inductive result (A : Type) : Type :=
| Ok (a : A)
| Error (e : error).
Arguments Ok {A} a.
Arguments Error {A} e.

(** Modelled from the spec: the constructor options of section 4.3, with the
    keyword names the tests use. *)
Record options : Type := Options {
  n_components : nat;
  lin_log : bool;
  no_hubs : bool;
  no_overlapping : bool;
  barnes_hut : bool;
  strong_gravity : bool
}.

(** [ForceAtlas2()] *)
Definition default_options : options := Options 2 false false false false false.

(** Modelled from the spec: an engine instance, with its options and, once
    fitted, the position table ("Output - Position table: dense N x d
    floating-point array"). *)
Record engine : Type := Engine {
  config : options;
  embedding_ : option (list vector)
}.

(** Modelled from the spec: the constructor, absent from the sources.
    "[n_components] must be 2 when [barnes_hut] is enabled - raises a
    configuration error otherwise". *)
Definition ForceAtlas2 (o : options) : result engine :=
  if barnes_hut o && negb (n_components o =? 2)%nat
  then Error ConfigurationConflictError
  else Ok (Engine o None).

(** ** Vectors of coordinates *)

Definition vzero (d : nat) : vector := replicate d 0.
Definition vadd (u v : vector) : vector := zip_with PrimFloat.add u v.
Definition vsub (u v : vector) : vector := zip_with PrimFloat.sub u v.
Definition vscale (c : float) (v : vector) : vector := map (PrimFloat.mul c) v.
Definition vsum (d : nat) (vs : list vector) : vector := fold_left vadd vs (vzero d).
Definition distance (p q : vector) : float := np_linalg_norm (vsub p q).

(** The force on a node at [p] exerted along the line to [q], with
    magnitude factor [c]. *)
Definition along (c : float) (p q : vector) : vector := vscale c (vsub p q).

(** A position table has shape [(n, d)]: [n] rows of [d] coordinates. *)
Definition has_shape (n d : nat) (pos : list vector) : Prop :=
  length pos = n /\ Forall (fun p => length p = d) pos.

(** A node as the simulation sees it: its index, its mass (derived from its
    degree) and its position. *)
Definition body : Type := nat * (float * vector).

(** Modelled from the spec: the Barnes-Hut spatial index of section 3, "a
    recursive rectangular quadtree of node positions": a cell holds the few
    nodes that fell into it, or its total mass, its centroid, its width and
    its four quadrants. *)
Inductive cell : Type :=
| Leaf (bodies : list body)
| Quad (mass : float) (centroid : vector) (width : float) (sw se nw ne : cell).

Definition coord (i : nat) (p : vector) : float := nth i p 0.

Definition total_mass (bs : list body) : float := np_sum (map (fun b => b.2.1) bs).

(** The mass-weighted mean of the planar positions. *)
Definition centroid_of (bs : list body) : vector :=
  let m := total_mass bs in
  [ np_sum (map (fun b => b.2.1 * coord 0 b.2.2) bs) / m;
    np_sum (map (fun b => b.2.1 * coord 1 b.2.2) bs) / m ].

Definition fmin (x y : float) : float := if PrimFloat.ltb y x then y else x.
Definition fmax (x y : float) : float := if PrimFloat.ltb x y then y else x.

Definition lower (i : nat) (bs : list body) : float :=
  fold_left (fun acc b => fmin acc (coord i b.2.2)) bs infinity.
Definition upper (i : nat) (bs : list body) : float :=
  fold_left (fun acc b => fmax acc (coord i b.2.2)) bs neg_infinity.

(** Modelled from the spec: the construction of the spatial index over the
    square of corner [(x0, y0)] and width [w]; a cell with more than one
    node is split into its four quadrants, down to [depth] levels. *)
Fixpoint build (depth : nat) (x0 y0 w : float) (bs : list body) : cell :=
  match bs with
  | [] | [_] => Leaf bs
  | _ =>
      match depth with
      | O => Leaf bs
      | S depth' =>
          let h := w / 2 in
          let xm := x0 + h in
          let ym := y0 + h in
          let left b := PrimFloat.ltb (coord 0 b.2.2) xm in
          let below b := PrimFloat.ltb (coord 1 b.2.2) ym in
          Quad (total_mass bs) (centroid_of bs) w
               (build depth' x0 y0 h (filter (fun b => left b && below b) bs))
               (build depth' xm y0 h (filter (fun b => negb (left b) && below b) bs))
               (build depth' x0 ym h (filter (fun b => left b && negb (below b)) bs))
               (build depth' xm ym h (filter (fun b => negb (left b) && negb (below b)) bs))
      end
  end.

(** Every position stored in a quadtree is planar, and so is every
    centroid. *)
Fixpoint planar (c : cell) : Prop :=
  match c with
  | Leaf bs => Forall (fun b : body => length b.2.2 = 2%nat) bs
  | Quad _ cen _ c1 c2 c3 c4 =>
      length cen = 2%nat /\ planar c1 /\ planar c2 /\ planar c3 /\ planar c4
  end.

Section Simulation.
(** Modelled from the spec: section 4.3 names the forces and the speed
    adaptation without giving their magnitudes; they are parameters here.
    [repulsion no_overlapping m1 m2 dist], [attraction lin_log no_hubs
    weight m dist] and [gravity strong_gravity m dist] are the magnitude
    factors of the three forces; [global_speed] and [local_speed] are the
    swing-based speed rules; [is_far width dist] is the Barnes-Hut opening
    test and [max_depth] bounds the quadtree; [random] is the seeded
    generator of the default initialization. *)
Variable repulsion : bool -> float -> float -> float -> float.
Variable attraction : bool -> bool -> float -> float -> float -> float.
Variable gravity : bool -> float -> float -> float.
Variable global_speed : float -> float -> float -> float.
Variable local_speed : float -> float -> float -> float.
Variable is_far : float -> float -> bool.
Variable max_depth : nat.
Variable random : nat -> float.

Section Iteration.
Variable o : options.

(** Modelled from the spec: step (1), exact, "compute pairwise repulsive
    force between every node pair". *)
Definition exact_repulsion (bs : list body) (b : body) : vector :=
  vsum (n_components o)
       (map (fun b' => along (repulsion (no_overlapping o) b.2.1 b'.2.1
                                        (distance b.2.2 b'.2.2))
                             b.2.2 b'.2.2)
            (filter (fun b' => negb (b'.1 =? b.1)%nat) bs)).

(** Modelled from the spec: step (1), approximated, "nodes far from a
    quadrant are treated as a single aggregate mass at the quadrant's
    centroid"; the approximation is planar. *)
Fixpoint tree_repulsion (c : cell) (b : body) : vector :=
  match c with
  | Leaf bs =>
      vsum 2
           (map (fun b' => along (repulsion (no_overlapping o) b.2.1 b'.2.1
                                            (distance b.2.2 b'.2.2))
                                 b.2.2 b'.2.2)
                (filter (fun b' => negb (b'.1 =? b.1)%nat) bs))
  | Quad m cen w c1 c2 c3 c4 =>
      if is_far w (distance b.2.2 cen)
      then along (repulsion (no_overlapping o) b.2.1 m (distance b.2.2 cen)) b.2.2 cen
      else vadd (vadd (tree_repulsion c1 b) (tree_repulsion c2 b))
                (vadd (tree_repulsion c3 b) (tree_repulsion c4 b))
  end.

(** Modelled from the spec: the spatial index, "rebuilt each iteration"
    from the current positions. *)
Definition spatial_index (bs : list body) : cell :=
  let x0 := lower 0 bs in
  let y0 := lower 1 bs in
  let w := fmax (upper 0 bs - x0) (upper 1 bs - y0) in
  build max_depth x0 y0 w bs.

(** Modelled from the spec: step (2), "attractive force along every edge,
    scaled by edge weight and optionally log-transformed". *)
Definition attractive_force (weights : vector) (bs : list body) (b : body) : vector :=
  vsum (n_components o)
       (map (fun '(w, b') =>
               along (PrimFloat.opp (attraction (lin_log o) (no_hubs o) w b.2.1
                                                (distance b.2.2 b'.2.2)))
                     b.2.2 b'.2.2)
            (filter (fun '(w, _) => negb (PrimFloat.eqb w 0)) (zip weights bs))).

(** Modelled from the spec: step (3), the "gravitational pull toward the
    origin". *)
Definition gravity_force (b : body) : vector :=
  vscale (PrimFloat.opp (gravity (strong_gravity o) b.2.1 (np_linalg_norm b.2.2))) b.2.2.

(** Modelled from the spec: steps (1)-(3) combined, for one node. *)
Definition force (adjacency : matrix) (index : option cell) (bs : list body) (b : body)
  : vector :=
  let rep := match index with
             | Some c => tree_repulsion c b
             | None => exact_repulsion bs b
             end in
  vadd (vadd rep (attractive_force (nth b.1 (rows adjacency) []) bs b))
       (gravity_force b).

(** Modelled from the spec: the force-simulation state of section 3 that
    lives across iterations: the positions, the forces of the previous
    iteration and the global speed. *)
Record state : Type := State {
  position : list vector;
  previous : list vector;
  speed : float
}.

(** Modelled from the spec: the mass of a node grows with its degree, the
    sum of the weights of its edges. *)
Definition masses (adjacency : matrix) : vector :=
  map (fun u => np_sum (nth u (rows adjacency) []) + 1) (seq 0 (n_rows adjacency)).

(** The nodes of the graph at their current positions. *)
Definition bodies (adjacency : matrix) (pos : list vector) : list body :=
  zip (seq 0 (n_rows adjacency)) (zip (masses adjacency) pos).

(** Modelled from the spec: one iteration, steps (1) to (5) of section
    4.3. *)
Definition step (adjacency : matrix) (s : state) : state :=
  let bs := bodies adjacency (position s) in
  let index := if barnes_hut o then Some (spatial_index bs) else None in
  let forces := map (force adjacency index bs) bs in
  (* (4) swing and traction of every node against the previous iteration *)
  let swing := zip_with (fun f f' => np_linalg_norm (vsub f f')) forces (previous s) in
  let traction := zip_with (fun f f' => np_linalg_norm (vadd f f') / 2) forces (previous s) in
  let ms := masses adjacency in
  let v := global_speed (speed s) (vdot ms swing) (vdot ms traction) in
  (* (5) every node moves along its force, at its own speed *)
  let moved :=
    zip_with (fun '(b, f) sw => vadd b.2.2 (vscale (local_speed v sw (np_linalg_norm f)) f))
             (zip bs forces) swing in
  State moved forces v.

(** Modelled from the spec: [n_iter] iterations, one after the other. *)
Fixpoint iterate (n_iter : nat) (adjacency : matrix) (s : state) : state :=
  match n_iter with
  | O => s
  | S k => iterate k adjacency (step adjacency s)
  end.
End Iteration.

(** Modelled from the spec: the seeded default initialization, an
    [(n, d)] table drawn from the generator. *)
Definition default_positions (n d : nat) : list vector :=
  map (fun u => map (fun c => random (u * d + c)) (seq 0 d)) (seq 0 n).

(** Modelled from the spec: [fit(graph, pos_init?, n_iter)], absent from
    the sources.  The adjacency must be square and "[pos_init], if given,
    must have shape (n_nodes, n_components) - raises on mismatch";
    "termination is purely by fixed iteration count [n_iter]". *)
Definition fit (self : engine) (adjacency : matrix) (pos_init : option matrix)
    (n_iter : nat) : result engine :=
  let n := n_rows adjacency in
  let d := n_components (config self) in
  if negb (n =? n_cols adjacency)%nat then Error InputShapeError
  else
    match pos_init with
    | Some p =>
        if bool_decide (shape p = (n, d))
        then
          let s := iterate (config self) n_iter adjacency
                     (State (rows p) (replicate n (vzero d)) 1) in
          Ok (Engine (config self) (Some (position s)))
        else Error InputShapeError
    | None =>
        let s := iterate (config self) n_iter adjacency
                   (State (default_positions n d) (replicate n (vzero d)) 1) in
        Ok (Engine (config self) (Some (position s)))
    end.

(** Modelled from the spec: [fit_transform(adjacency)], absent from the
    sources: fit, then hand out [self.embedding_]. *)
Definition fit_transform (self : engine) (adjacency : matrix) (n_iter : nat)
  : result (option (list vector)) :=
  match fit self adjacency None n_iter with
  | Ok fitted => Ok (embedding_ fitted)
  | Error e => Error e
  end.
End Simulation.

(** Magnitudes in the manner of the ForceAtlas2 layout and a fixed
    pseudo-random sequence, to run the engine on examples. *)
Definition demo_repulsion (no_overlapping : bool) (m1 m2 dist : float) : float :=
  0.015625 * m1 * m2 / (dist * dist).
Definition demo_attraction (lin_log no_hubs : bool) (w m dist : float) : float :=
  if no_hubs then w / m else w.
Definition demo_gravity (strong : bool) (m dist : float) : float :=
  if strong then m else m / dist.
Definition demo_global_speed (v swing traction : float) : float :=
  fmin (1.5 * v) (traction / (swing + 1)).
Definition demo_local_speed (v swing norm : float) : float :=
  0.125 * v / (1 + v * PrimFloat.sqrt swing).
Definition demo_is_far (width dist : float) : bool := PrimFloat.ltb (width / dist) 1.25.
Fixpoint demo_random (i : nat) : float :=
  match i with
  | O => 0.25
  | S k => let x := demo_random k in 3.75 * x * (1 - x)
  end.

Definition demo_fit_transform (o : options) (adjacency : matrix) (n_iter : nat)
  : result (option (list vector)) :=
  match ForceAtlas2 o with
  | Ok self =>
      fit_transform demo_repulsion demo_attraction demo_gravity demo_global_speed
                    demo_local_speed demo_is_far 8 demo_random self adjacency n_iter
  | Error e => Error e
  end.

End ForceAtlas.

(** * Properties of the metrics *)

(** ** [np.unique] under a relabeling *)

Section Relabeling.
Variable f : Z -> Z.

Lemma order_preserving_compare (l : list Z) (x y : Z) :
  order_preserving_on l f -> x ∈ l -> y ∈ l ->
  Z.compare (f x) (f y) = Z.compare x y.
Proof.
  intros Hf Hx Hy.
  destruct (Z.compare_spec x y) as [-> | Hlt | Hgt].
  - apply Z.compare_refl.
  - apply Z.compare_lt_iff. now apply Hf.
  - apply Z.compare_gt_iff. now apply Hf.
Qed.

Lemma order_preserving_on_cons (x : Z) (l : list Z) :
  order_preserving_on (x :: l) f -> order_preserving_on l f.
Proof. intros Hf a b Ha Hb. apply Hf; now apply list_elem_of_further. Qed.

Lemma insert_unique_elem (x y : Z) (u : list Z) :
  y ∈ insert_unique x u -> y = x \/ y ∈ u.
Proof.
  induction u as [| z u IH]; simpl.
  - intros H. apply list_elem_of_singleton in H. now left.
  - destruct (Z.compare x z).
    + now right.
    + intros H. apply elem_of_cons in H as [-> | H]; [now left | now right].
    + intros H. apply elem_of_cons in H as [-> | H].
      * right. apply list_elem_of_here.
      * destruct (IH H) as [-> | Hy]; [now left |].
        right. now apply list_elem_of_further.
Qed.

Lemma np_unique_elem (y : Z) (l : list Z) : y ∈ np_unique l -> y ∈ l.
Proof.
  induction l as [| x l IH]; simpl; [easy |].
  intros H. apply insert_unique_elem in H as [-> | H].
  - apply list_elem_of_here.
  - apply list_elem_of_further. now apply IH.
Qed.

Lemma insert_unique_map (l u : list Z) (x : Z) :
  order_preserving_on l f -> x ∈ l -> (forall y, y ∈ u -> y ∈ l) ->
  insert_unique (f x) (map f u) = map f (insert_unique x u).
Proof.
  intros Hf Hx. induction u as [| y u IH]; intros Hu; simpl; [reflexivity |].
  rewrite (order_preserving_compare l x y Hf Hx (Hu y (list_elem_of_here y u))).
  destruct (Z.compare x y); simpl; try reflexivity.
  f_equal. apply IH. intros z Hz. apply Hu. now apply list_elem_of_further.
Qed.

Lemma np_unique_map_sub (l0 l : list Z) :
  order_preserving_on l0 f -> (forall y, y ∈ l -> y ∈ l0) ->
  np_unique (map f l) = map f (np_unique l).
Proof.
  intros Hf. induction l as [| x l IH]; intros Hsub; simpl; [reflexivity |].
  rewrite IH by (intros y Hy; apply Hsub; now apply list_elem_of_further).
  apply (insert_unique_map l0); [assumption | apply Hsub, list_elem_of_here |].
  intros y Hy. apply Hsub. apply list_elem_of_further. now apply np_unique_elem.
Qed.

(** The distinct values of the relabeled array are the relabeled distinct
    values, in the same order. *)
Lemma np_unique_map (l : list Z) :
  order_preserving_on l f -> np_unique (map f l) = map f (np_unique l).
Proof. intros Hf. now apply (np_unique_map_sub l). Qed.

Lemma order_preserving_inj (l : list Z) (x y : Z) :
  order_preserving_on l f -> x ∈ l -> y ∈ l -> f x = f y -> x = y.
Proof.
  intros Hf Hx Hy Heq.
  pose proof (order_preserving_compare l x y Hf Hx Hy) as Hc.
  rewrite Heq, Z.compare_refl in Hc. symmetry in Hc.
  now apply Z.compare_eq_iff.
Qed.

Lemma index_of_map (l u : list Z) (x : Z) :
  order_preserving_on l f -> x ∈ l -> (forall y, y ∈ u -> y ∈ l) ->
  index_of (f x) (map f u) = index_of x u.
Proof.
  intros Hf Hx. induction u as [| y u IH]; intros Hu; simpl; [reflexivity |].
  assert (Hy : y ∈ l) by apply Hu, list_elem_of_here.
  destruct (Z.eqb_spec x y) as [-> | Hne].
  - now rewrite Z.eqb_refl.
  - destruct (Z.eqb_spec (f x) (f y)) as [Heq | _].
    + exfalso. apply Hne. now apply (order_preserving_inj l).
    + f_equal. apply IH. intros z Hz. apply Hu. now apply list_elem_of_further.
Qed.

(** [return_inverse] does not see an order-preserving relabeling. *)
Lemma np_unique_inverse_map (l : list Z) :
  order_preserving_on l f ->
  (np_unique_inverse (map f l)).2 = (np_unique_inverse l).2.
Proof.
  intros Hf. unfold np_unique_inverse. simpl.
  rewrite np_unique_map by assumption.
  rewrite map_map. apply map_ext_in. intros x Hx.
  f_equal. apply (index_of_map l); [assumption | now apply list_elem_of_In |].
  intros y. apply np_unique_elem.
Qed.
End Relabeling.

(** [bimodularity] reads its label arrays only through [return_inverse]. *)
Lemma bimodularity_inverse (b : adjacency_arg) (s s' t t' : list Z) (resolution : float) :
  (np_unique_inverse s').2 = (np_unique_inverse s).2 ->
  (np_unique_inverse t').2 = (np_unique_inverse t).2 ->
  bimodularity b s' t' resolution = bimodularity b s t resolution.
Proof.
  intros Hs Ht. unfold bimodularity.
  destruct (np_unique_inverse s') as [us' is'], (np_unique_inverse s) as [us is_].
  destruct (np_unique_inverse t') as [ut' it'], (np_unique_inverse t) as [ut it].
  simpl in Hs, Ht. subst is' it'. reflexivity.
Qed.

(** C10. [bimodularity] relabels the sample labels and the feature labels
    separately, each to the ranks [0, 1, ...] of its own distinct values, so
    applying an order-preserving (hence injective) relabeling [f] to the
    sample labels and another one [g] to the feature labels changes nothing
    in what [bimodularity] returns, for any biadjacency and resolution. *)
Theorem bimodularity_relabel_invariant
    (biadjacency : adjacency_arg) (sample_labels feature_labels : list Z)
    (resolution : float) (f g : Z -> Z) :
  order_preserving_on sample_labels f ->
  order_preserving_on feature_labels g ->
  bimodularity biadjacency (map f sample_labels) (map g feature_labels) resolution
  = bimodularity biadjacency sample_labels feature_labels resolution.
Proof.
  intros Hf Hg. apply bimodularity_inverse; now apply np_unique_inverse_map.
Qed.

(** ** Running the body of [modularity] *)

Lemma py_bind_call {A B} (o : outcome A) (k : A -> py B) (fr : frame) :
  (call o ≫= k) fr = match o with Return a => k a fr | Raise e => (fr, Raise e) end.
Proof. unfold mbind, py_bind, call. now destruct o. Qed.

Lemma py_bind_ret {A B} (a : A) (k : A -> py B) (fr : frame) :
  (mret a ≫= k) fr = k a fr.
Proof. reflexivity. Qed.

Lemma py_bind_raise {A B} (e : exn) (k : A -> py B) (fr : frame) :
  (raise e ≫= k) fr = (fr, Raise e).
Proof. reflexivity. Qed.

Lemma length_np_ones (n : nat) : length (np_ones n) = n.
Proof. apply length_replicate. Qed.

Lemma length_np_arange (n : nat) : length (np_arange n) = n.
Proof. unfold np_arange. now rewrite length_map, length_seq. Qed.

(** The normalised adjacency of a square matrix has a product with the
    all-ones vector of length [n_nodes]. *)
Lemma probs_defined (m : matrix) (s : float) :
  n_rows m = n_cols m ->
  mat_dot_vec (sparse_div_scalar m s) (np_ones (n_rows m))
  = Return (map (fun r => sparse_dot_dense r (np_ones (n_rows m))) (rows (sparse_div_scalar m s))).
Proof.
  intros Hsq. unfold mat_dot_vec. rewrite length_np_ones.
  cbn [n_cols sparse_div_scalar]. rewrite <- Hsq.
  now destruct (decide (n_rows m = n_rows m)).
Qed.

(** C7. Whatever the partition, the resolution and the [directed] flag, a
    matrix argument (csr, other sparse or dense) with [n] rows and [m]
    columns, [n <> m], makes [modularity] raise [ValueError] ('The adjacency
    must be a square matrix.'); the call returns no value. *)
Theorem modularity_non_square_raises
    (adjacency : adjacency_arg) (a : matrix) (partition : partition_arg)
    (resolution : float) (directed : bool) :
  as_matrix adjacency = Some a ->
  n_rows a <> n_cols a ->
  modularity adjacency partition resolution directed
  = Raise (ValueError "The adjacency must be a square matrix.")
  /\ ~ returns (modularity adjacency partition resolution directed).
Proof.
  intros Ha Hne.
  assert (H : modularity adjacency partition resolution directed
              = Raise (ValueError "The adjacency must be a square matrix.")).
  { unfold modularity, modularity_run, modularity_body.
    destruct adjacency as [m | m | m |]; simplify_eq/=;
      rewrite py_bind_ret; unfold csr_matrix, shape;
      cbn [mbind py_bind set_adj_matrix set_n_nodes_m_nodes];
      rewrite bool_decide_eq_false_2 by assumption; reflexivity. }
  split; [exact H |]. rewrite H. intros [v Hv]. discriminate.
Qed.

Ltac py_run :=
  unfold mbind, py_bind, mret, py_ret, call, raise, set_adj_matrix,
    set_n_nodes_m_nodes, set_norm_adj, set_probs, set_labels;
  cbn beta iota;
  cbn [adj_matrix n_nodes m_nodes norm_adj probs labels empty_frame fst snd].

Lemma dict_labels_defined (d : gmap Z Z) (keys : list Z) :
  (forall k, k ∈ keys -> exists c, d !! k = Some c /\ (0 <= c)%Z) ->
  exists l, dict_labels d keys = Return l
            /\ length l = length keys /\ Forall (fun c => (0 <= c)%Z) l.
Proof.
  induction keys as [| k keys IH]; intros Hk.
  - exists []. simpl. auto.
  - destruct (Hk k (list_elem_of_here k keys)) as (c & Hc & Hpos).
    destruct IH as (l & Hl & Hlen & Hall).
    { intros k' Hk'. apply Hk. now apply list_elem_of_further. }
    exists (c :: l). simpl. rewrite Hc, Hl. simpl.
    repeat split; [now rewrite Hlen | now constructor].
Qed.

Lemma valid_partition_labels (n : nat) (partition : partition_arg) :
  valid_partition n partition ->
  exists lbl, partition_labels n partition = Some lbl
              /\ length lbl = n /\ Forall (fun c => (0 <= c)%Z) lbl.
Proof.
  destruct partition as [d | a |]; simpl; [| | easy].
  - intros Hd. destruct (dict_labels_defined d (np_arange n)) as (l & Hl & Hlen & Hall).
    { intros k Hk. unfold np_arange in Hk. apply list_elem_of_fmap in Hk as (i & -> & Hi).
      apply Hd. apply elem_of_seq in Hi. lia. }
    exists l. rewrite Hl, Hlen, length_np_arange. auto.
  - intros [Hlen Hall]. exists a. auto.
Qed.

Lemma max_list_le (l : list Z) (b : Z) :
  (0 <= b)%Z -> (forall x, x ∈ l -> (x <= b)%Z) -> (max_list l <= b)%Z.
Proof.
  intros Hb. unfold max_list. induction l as [| x l IH]; simpl; intros Hl; [assumption |].
  apply Z.max_lub.
  - apply Hl, list_elem_of_here.
  - apply IH. intros y Hy. apply Hl. now apply list_elem_of_further.
Qed.

Lemma max_list_ge (l : list Z) (x : Z) : x ∈ l -> (x <= max_list l)%Z.
Proof.
  unfold max_list. induction 1 as [x l | x y l Hx IH]; simpl; lia.
Qed.

Lemma max_list_np_arange (n : nat) : max_list (np_arange (S n)) = Z.of_nat n.
Proof.
  apply Z.le_antisymm.
  - apply max_list_le; [lia |]. intros x Hx. unfold np_arange in Hx.
    apply list_elem_of_fmap in Hx as (i & -> & Hi). apply elem_of_seq in Hi. lia.
  - apply max_list_ge. unfold np_arange. apply list_elem_of_fmap.
    exists n. split; [reflexivity |]. apply elem_of_seq. lia.
Qed.

Lemma np_arange_nonneg (n : nat) : ~ Exists (fun r => (r < 0)%Z) (np_arange n).
Proof.
  intros H. apply Exists_exists in H as (x & Hx & Hneg). unfold np_arange in Hx.
  apply list_elem_of_fmap in Hx as (i & -> & _). lia.
Qed.

Lemma np_arange_bounded (n : nat) :
  ~ Exists (fun r => (Z.of_nat n <= r)%Z) (np_arange n).
Proof.
  intros H. apply Exists_exists in H as (x & Hx & Hle). unfold np_arange in Hx.
  apply list_elem_of_fmap in Hx as (i & -> & Hi). apply elem_of_seq in Hi. lia.
Qed.

Lemma wrap_int64_fits (z : Z) :
  (int64_min <= z <= int64_max)%Z -> wrap_int64 z = z.
Proof.
  unfold wrap_int64, int64_min, int64_max. intros Hz.
  rewrite Z.mod_small by lia. lia.
Qed.

(** The width inferred from labels below the number of nodes fits a 64-bit
    integer, as the number of nodes does. *)
Lemma inferred_width_fits (n : nat) (lbl : list Z) :
  (Z.of_nat (S n) <= int64_max)%Z ->
  Forall (fun c => (c < Z.of_nat (S n))%Z) lbl ->
  ~ (int64_max < max_list (np_arange (S n)) + 1 \/ int64_max < max_list lbl + 1)%Z.
Proof.
  intros Hn Hall. rewrite max_list_np_arange.
  assert (max_list lbl <= Z.of_nat n)%Z.
  { apply max_list_le; [lia |]. intros x Hx. rewrite Forall_forall in Hall.
    specialize (Hall x Hx). lia. }
  lia.
Qed.

(** The membership matrix of [n > 0] nodes with labels among [0 .. n-1]: one
    row per node. *)
Lemma membership_defined (n : nat) (lbl : list Z) :
  0 < n -> (Z.of_nat n <= int64_max)%Z -> length lbl = n ->
  Forall (fun c => (0 <= c < Z.of_nat n)%Z) lbl ->
  exists k rws, coo_matrix (np_ones n) (np_arange n) lbl None = Return (Matrix n k rws)
                /\ length rws = n.
Proof.
  intros Hn Hfit Hlen Hall. unfold coo_matrix.
  destruct n as [| n]; [lia |].
  rewrite (bool_decide_eq_false_2 (np_arange (S n) = [] \/ lbl = [])).
  2:{ intros [H | H]; [| subst lbl; discriminate].
      pose proof (length_np_arange (S n)) as Hl. rewrite H in Hl. discriminate. }
  rewrite (bool_decide_eq_false_2
             (int64_max < max_list (np_arange (S n)) + 1
              \/ int64_max < max_list lbl + 1)%Z).
  2:{ apply inferred_width_fits; [assumption |].
      eapply Forall_impl; [exact Hall |]. intros c Hc. simpl in Hc. lia. }
  cbn [mbind outcome_bind].
  rewrite length_np_ones, length_np_arange, Hlen.
  rewrite bool_decide_eq_true_2 by auto. cbn [negb].
  rewrite max_list_np_arange.
  replace (Z.to_nat (Z.of_nat n + 1)) with (S n) by lia.
  rewrite bool_decide_eq_false_2 by apply np_arange_bounded.
  rewrite bool_decide_eq_false_2.
  2:{ intros H. apply Exists_exists in H as (x & Hx & Hle).
      pose proof (max_list_ge lbl x Hx) as Hmax.
      assert (0 <= max_list lbl)%Z by (unfold max_list; destruct lbl; simpl; lia).
      lia. }
  rewrite bool_decide_eq_false_2 by apply np_arange_nonneg.
  rewrite bool_decide_eq_false_2.
  2:{ intros H. apply Exists_exists in H as (x & Hx & Hneg).
      rewrite Forall_forall in Hall. specialize (Hall x Hx). lia. }
  eexists _, _. split; [reflexivity |]. now rewrite length_map, length_seq.
Qed.

Lemma dict_labels_Forall (P : Z -> Prop) (d : gmap Z Z) (keys : list Z) :
  (forall k, k ∈ keys -> exists c, d !! k = Some c /\ P c) ->
  exists l, dict_labels d keys = Return l /\ length l = length keys /\ Forall P l.
Proof.
  induction keys as [| k keys IH]; intros Hk.
  - exists []. simpl. auto.
  - destruct (Hk k (list_elem_of_here k keys)) as (c & Hc & Hpos).
    destruct IH as (l & Hl & Hlen & Hall).
    { intros k' Hk'. apply Hk. now apply list_elem_of_further. }
    exists (c :: l). simpl. rewrite Hc, Hl. simpl.
    repeat split; [now rewrite Hlen | now constructor].
Qed.

Lemma community_partition_labels (n : nat) (partition : partition_arg) :
  community_partition n partition ->
  exists lbl, partition_labels n partition = Some lbl
              /\ length lbl = n /\ Forall (fun c => (0 <= c < Z.of_nat n)%Z) lbl.
Proof.
  destruct partition as [d | a |]; simpl; [| | easy].
  - intros Hd.
    destruct (dict_labels_Forall (fun c => (0 <= c < Z.of_nat n)%Z) d (np_arange n))
      as (l & Hl & Hlen & Hall).
    { intros k Hk. unfold np_arange in Hk. apply list_elem_of_fmap in Hk as (i & -> & Hi).
      apply Hd. apply elem_of_seq in Hi. lia. }
    exists l. rewrite Hl, Hlen, length_np_arange. auto.
  - intros [Hlen Hall]. exists a. auto.
Qed.

Lemma community_partition_valid (n : nat) (partition : partition_arg) :
  community_partition n partition -> valid_partition n partition.
Proof.
  destruct partition as [d | a |]; simpl; [| | easy].
  - intros H i Hi. destruct (H i Hi) as (c & Hc & Hb). exists c. split; [assumption | lia].
  - intros [Hlen Hall]. split; [assumption |].
    eapply Forall_impl; [exact Hall |]. intros c Hc. simpl in Hc. lia.
Qed.

Lemma partition_labels_read (n : nat) (partition : partition_arg) (lbl : list Z) :
  partition_labels n partition = Some lbl ->
  forall fr : frame,
    match partition with
    | Dict d => fun fr : frame => (fr, dict_labels d (np_arange n))
    | LabelArray a => fun fr : frame => (fr, Return a)
    | OtherPartition =>
        fun fr : frame =>
          (fr, Raise (TypeError "The partition must be a dictionary or a NumPy array."))
    end fr = (fr, Return lbl).
Proof.
  destruct partition as [d | a |]; simpl; [| congruence | discriminate].
  destruct (dict_labels d (np_arange n)); [| discriminate]. congruence.
Qed.

(** C9, as the code has it.  For a square dense [np.ndarray] adjacency and
    a partition giving each node a non-negative label, [modularity] with
    [directed=True] hands the original array, not its sparse conversion, to
    [bimodularity], whose [biadjacency.data.sum()] then raises
    [AttributeError].  The same call with [directed=False] works on the
    converted matrix and returns a value when the graph has at least one
    node and the labels are community numbers among [0 .. n-1]. *)
Theorem modularity_dense_directed_fails
    (m : matrix) (partition : partition_arg) (resolution : float) :
  well_formed m -> n_rows m = n_cols m ->
  valid_partition (n_rows m) partition ->
  ((exists lbl, partition_labels (n_rows m) partition = Some lbl
      /\ modularity (Ndarray m) partition resolution true
         = bimodularity (Ndarray m) lbl lbl resolution)
   /\ modularity (Ndarray m) partition resolution true
      = Raise (AttributeError "'memoryview' object has no attribute 'sum'"))
  /\ (0 < n_rows m -> (Z.of_nat (n_rows m) <= int64_max)%Z ->
      community_partition (n_rows m) partition ->
      adj_matrix (modularity_run (Ndarray m) partition resolution false).1
      = Some (csr_matrix m)
      /\ returns (modularity (Ndarray m) partition resolution false)).
Proof.
  intros [Hrows _] Hsq Hvalid.
  destruct (valid_partition_labels _ _ Hvalid) as (lbl & Hlbl & Hlen & _).
  pose proof (partition_labels_read _ _ _ Hlbl) as Hread.
  assert (Htrue : modularity (Ndarray m) partition resolution true
                  = bimodularity (Ndarray m) lbl lbl resolution).
  { unfold modularity, modularity_run, modularity_body.
    rewrite py_bind_ret. unfold csr_matrix, shape. py_run.
    rewrite bool_decide_eq_true_2 by assumption. cbn [negb].
    rewrite probs_defined by assumption. py_run.
    rewrite Hread. reflexivity. }
  split.
  { split; [exists lbl; auto |]. rewrite Htrue. reflexivity. }
  intros Hn Hfit Hcomm.
  destruct (community_partition_labels _ _ Hcomm) as (lbl' & Hlbl' & _ & Hall).
  assert (lbl' = lbl) as -> by congruence.
  destruct (membership_defined (n_rows m) lbl Hn Hfit Hlen Hall)
    as (k & rws & Hmem & Hrws).
  assert (Hfalse : exists v, modularity_run (Ndarray m) partition resolution false
                   = (Frame (Some m) (Some (n_rows m)) (Some (n_cols m))
                        (Some (sparse_div_scalar m (data_sum m)))
                        (Some (map (fun r => sparse_dot_dense r (np_ones (n_rows m)))
                                   (rows (sparse_div_scalar m (data_sum m)))))
                        (Some lbl), Return v)).
  { unfold modularity_run, modularity_body.
    rewrite py_bind_ret. unfold csr_matrix, shape. py_run.
    rewrite bool_decide_eq_true_2 by assumption. cbn [negb].
    rewrite probs_defined by assumption. py_run.
    rewrite Hread. rewrite Hmem.
    unfold mat_dot. cbn [n_cols n_rows sparse_div_scalar].
    rewrite <- Hsq. destruct (decide (n_rows m = n_rows m)) as [_ | ?]; [| congruence].
    unfold mat_multiply, shape. cbn [n_cols n_rows].
    destruct (decide ((n_rows m, k) = (n_rows m, k))) as [_ | ?]; [| congruence].
    unfold mat_dot_vec. cbn [n_cols n_rows transpose]. rewrite length_np_ones.
    destruct (decide (k = k)) as [_ | ?]; [| congruence].
    rewrite length_map. cbn [rows sparse_div_scalar]. rewrite length_map, Hrows.
    destruct (decide (n_rows m = n_rows m)) as [_ | ?]; [| congruence].
    eexists. reflexivity. }
  destruct Hfalse as (v & Hv).
  unfold modularity. rewrite Hv. split; [reflexivity | now exists v].
Qed.

Lemma modularity_run_other_partition
    (adjacency : adjacency_arg) (a : matrix) (resolution : float) (directed : bool) :
  as_matrix adjacency = Some a ->
  n_rows a = n_cols a ->
  modularity_run adjacency OtherPartition resolution directed
  = (normalised_frame a,
     Raise (TypeError "The partition must be a dictionary or a NumPy array.")).
Proof.
  intros Ha Hsq.
  unfold modularity_run, modularity_body, normalised_frame.
  destruct adjacency as [m | m | m |]; simplify_eq/=;
    rewrite py_bind_ret; unfold csr_matrix, shape; py_run;
    rewrite bool_decide_eq_true_2 by assumption; cbn [negb];
    rewrite probs_defined by assumption; py_run; reflexivity.
Qed.

(** C6, as the code has it.  An [adjacency] argument that is neither an
    [np.ndarray] nor a scipy sparse matrix makes [modularity] raise
    [TypeError] at once, before any local variable is assigned, whatever the
    partition.  A [partition] argument that is neither a [dict] nor an
    [np.ndarray] makes it raise [TypeError] when the adjacency is a
    recognised square matrix; that check comes after the adjacency has been
    converted, shape-checked and normalised, so [norm_adj] and [probs] have
    been computed by then.  No value is returned in either case. *)
Theorem modularity_type_errors
    (adjacency : adjacency_arg) (a : matrix) (partition : partition_arg)
    (resolution : float) (directed : bool) :
  modularity_run OtherAdjacency partition resolution directed
  = (empty_frame,
     Raise (TypeError "The argument must be a NumPy array or a SciPy Sparse matrix."))
  /\ (as_matrix adjacency = Some a -> n_rows a = n_cols a ->
      modularity_run adjacency OtherPartition resolution directed
      = (normalised_frame a,
         Raise (TypeError "The partition must be a dictionary or a NumPy array."))).
Proof.
  split; [reflexivity | apply modularity_run_other_partition].
Qed.

Lemma modularity_type_errors_witness :
  modularity_run OtherAdjacency (LabelArray [0%Z; 1%Z]) 1 false
  = (empty_frame,
     Raise (TypeError "The argument must be a NumPy array or a SciPy Sparse matrix."))
  /\ modularity_run (Ndarray two_by_two) OtherPartition 1 false
     = (normalised_frame two_by_two,
        Raise (TypeError "The partition must be a dictionary or a NumPy array.")).
Proof.
  destruct (modularity_type_errors (Ndarray two_by_two) two_by_two
              (LabelArray [0%Z; 1%Z]) 1 false) as [H1 H2].
  split; [exact H1 | apply H2; reflexivity].
Defined.

(** C6 as stated fails twice.  With a partition of an unrecognised type and
    the dense 1 x 2 array [[1, 2]] the error raised is the shape
    [ValueError], not a [TypeError].  With the same partition and the dense
    2 x 2 array [[0, 1], [1, 0]] the [TypeError] is raised only after
    [norm_adj = [[0, .5], [.5, 0]]] and [probs = [.5, .5]] have been
    computed. *)
Lemma modularity_partition_type_error_is_late :
  modularity (Ndarray one_by_two) OtherPartition 1 false
  = Raise (ValueError "The adjacency must be a square matrix.")
  /\ modularity_run (Ndarray two_by_two) OtherPartition 1 false
     = (Frame (Some two_by_two) (Some 2%nat) (Some 2%nat)
              (Some (Matrix 2 2 [[0; 0.5]; [0.5; 0]])) (Some [0.5; 0.5]) None,
        Raise (TypeError "The partition must be a dictionary or a NumPy array."))
  /\ (modularity_run (Ndarray two_by_two) OtherPartition 1 false).1 <> empty_frame.
Proof.
  split; [| split]; [vm_compute; reflexivity .. | vm_compute; discriminate].
Qed.

Lemma modularity_non_square_witness :
  modularity (Ndarray one_by_two) (LabelArray [0%Z]) 1 false
  = Raise (ValueError "The adjacency must be a square matrix.")
  /\ ~ returns (modularity (Ndarray one_by_two) (LabelArray [0%Z]) 1 false).
Proof.
  apply (modularity_non_square_raises (Ndarray one_by_two) one_by_two);
    [reflexivity | simpl; lia].
Defined.

Lemma two_by_two_well_formed : well_formed two_by_two.
Proof. split; [reflexivity | repeat constructor]. Defined.

Lemma modularity_dense_directed_witness :
  ((exists lbl, partition_labels 2%nat (LabelArray [0%Z; 1%Z]) = Some lbl
      /\ modularity (Ndarray two_by_two) (LabelArray [0%Z; 1%Z]) 1 true
         = bimodularity (Ndarray two_by_two) lbl lbl 1)
   /\ modularity (Ndarray two_by_two) (LabelArray [0%Z; 1%Z]) 1 true
      = Raise (AttributeError "'memoryview' object has no attribute 'sum'"))
  /\ adj_matrix (modularity_run (Ndarray two_by_two) (LabelArray [0%Z; 1%Z]) 1 false).1
     = Some (csr_matrix two_by_two)
  /\ returns (modularity (Ndarray two_by_two) (LabelArray [0%Z; 1%Z]) 1 false).
Proof.
  destruct (modularity_dense_directed_fails two_by_two (LabelArray [0%Z; 1%Z]) 1)
    as [Hdirected Hundirected].
  - exact two_by_two_well_formed.
  - reflexivity.
  - simpl. split; [reflexivity | repeat constructor; lia].
  - split; [exact Hdirected |]. apply Hundirected.
    + simpl; lia.
    + vm_compute. discriminate.
    + simpl. split; [reflexivity | repeat constructor; lia].
Defined.

(** C9 as stated fails on the directed=False side.  The dense 0 x 0 array
    is square and the empty label array is a partition of its nodes, yet
    the call raises [ValueError]: the shape of the membership matrix cannot
    be inferred from empty index arrays (line 118).  On the dense 2 x 2
    array [[0, 1], [1, 0]] the labels [0, 2^63 - 1] are non-negative, one
    per node, yet the call raises [OverflowError]: the inferred number of
    columns, [2^63], does not fit a 64-bit integer. *)
Lemma modularity_dense_undirected_raises :
  (well_formed (Matrix 0 0 []) /\ valid_partition 0 (LabelArray [])
   /\ modularity (Ndarray (Matrix 0 0 [])) (LabelArray []) 1 false
      = Raise (ValueError "cannot infer dimensions from zero sized index arrays")
   /\ ~ returns (modularity (Ndarray (Matrix 0 0 [])) (LabelArray []) 1 false))
  /\ (well_formed two_by_two
      /\ valid_partition 2 (LabelArray [0; 9223372036854775807]%Z)
      /\ is_overflow_error
           (modularity (Ndarray two_by_two) (LabelArray [0; 9223372036854775807]%Z)
              1 false) = true
      /\ ~ returns (modularity (Ndarray two_by_two)
                      (LabelArray [0; 9223372036854775807]%Z) 1 false)).
Proof.
  split.
  - split; [split; [reflexivity | constructor] |].
    split; [split; [reflexivity | constructor] |].
    split; [vm_compute; reflexivity |].
    intros [v Hv]. vm_compute in Hv. discriminate.
  - split; [exact two_by_two_well_formed |].
    split; [split; [reflexivity | repeat constructor; lia] |].
    split; [vm_compute; reflexivity |].
    intros [v Hv]. vm_compute in Hv. discriminate.
Qed.

(** What the two calls of the witness evaluate to, and the same directed
    call on the csr form of the matrix. *)
Example modularity_two_by_two_undirected :
  modularity (Ndarray two_by_two) (LabelArray [0%Z; 1%Z]) 1 false = Return (-0x1.0000000000001p-1).
Proof. vm_compute. reflexivity. Qed.

Example modularity_two_by_two_directed_csr :
  modularity (Csr two_by_two) (LabelArray [0%Z; 1%Z]) 1 true = Return (-0.5).
Proof. vm_compute. reflexivity. Qed.

Lemma bimodularity_relabel_witness :
  bimodularity (Csr two_by_three) (map (fun x => 2 * x + 1)%Z [0; 4]%Z)
               (map (fun x => x - 10)%Z [7; 3; 7]%Z) 1
  = bimodularity (Csr two_by_three) [0; 4]%Z [7; 3; 7]%Z 1.
Proof.
  apply bimodularity_relabel_invariant; intros x y _ _ H; lia.
Defined.

(** Labels are matched by rank on each side: feature labels [5; 7] never
    equal the sample labels [0; 1], yet they score as [0; 1] would. *)
Example bimodularity_matches_ranks :
  bimodularity (Csr two_by_two) [0; 1]%Z [5; 7]%Z 1 = Return (-0.5)
  /\ bimodularity (Csr two_by_two) [0; 1]%Z [0; 1]%Z 1 = Return (-0.5)
  /\ bimodularity (Csr two_by_two) [0; 1]%Z [7; 5]%Z 1 = Return 0.5.
Proof. vm_compute. auto. Qed.

(** ** Dictionary partitions *)

Lemma dict_labels_missing (d : gmap Z Z) (s len i : nat) :
  s <= i < s + len ->
  d !! Z.of_nat i = None ->
  (forall j, s <= j < i -> is_Some (d !! Z.of_nat j)) ->
  dict_labels d (map Z.of_nat (seq s len)) = Raise (KeyError (Z.of_nat i)).
Proof.
  revert s. induction len as [| len IH]; intros s Hi Hnone Hsome; [lia |].
  cbn [seq map dict_labels].
  destruct (decide (s = i)) as [-> | Hne].
  - now rewrite Hnone.
  - destruct (Hsome s) as [c Hc]; [lia |]. rewrite Hc.
    rewrite (IH (S s)); [reflexivity | lia | assumption |].
    intros j Hj. apply Hsome. lia.
Qed.

(** X2. A [dict] partition that lacks node [i], the first one it lacks,
    makes [modularity] raise [KeyError(i)] on a square matrix of more than
    [i] nodes (line 106). *)
Theorem modularity_dict_missing_node
    (adjacency : adjacency_arg) (a : matrix) (d : gmap Z Z) (i : nat)
    (resolution : float) (directed : bool) :
  as_matrix adjacency = Some a ->
  n_rows a = n_cols a ->
  i < n_rows a ->
  d !! Z.of_nat i = None ->
  (forall j, j < i -> is_Some (d !! Z.of_nat j)) ->
  modularity adjacency (Dict d) resolution directed = Raise (KeyError (Z.of_nat i)).
Proof.
  intros Ha Hsq Hi Hnone Hsome.
  assert (Hd : dict_labels d (np_arange (n_rows a)) = Raise (KeyError (Z.of_nat i))).
  { apply dict_labels_missing; [lia | assumption |]. intros j Hj. apply Hsome. lia. }
  unfold modularity, modularity_run, modularity_body.
  destruct adjacency as [m | m | m |]; simplify_eq/=;
    rewrite py_bind_ret; unfold csr_matrix, shape; py_run;
    rewrite bool_decide_eq_true_2 by assumption; cbn [negb];
    rewrite probs_defined by assumption; py_run;
    rewrite Hd; reflexivity.
Qed.

Lemma modularity_dict_missing_node_witness :
  modularity (Csr two_by_two) (Dict {[ 0%Z := 3%Z ]}) 1 false = Raise (KeyError 1).
Proof.
  apply (modularity_dict_missing_node (Csr two_by_two) two_by_two {[ 0%Z := 3%Z ]} 1);
    [reflexivity | reflexivity | simpl; lia | reflexivity |].
  intros j Hj. assert (j = 0%nat) as -> by lia. now exists 3%Z.
Defined.

(** X3. A [dict] partition is read into the array of the labels of the
    nodes [0 .. n-1] and scores as that array does (lines 105-108). *)
Theorem modularity_dict_as_array
    (adjacency : adjacency_arg) (a : matrix) (d : gmap Z Z) (lbl : list Z)
    (resolution : float) (directed : bool) :
  as_matrix adjacency = Some a ->
  dict_labels d (np_arange (n_rows a)) = Return lbl ->
  modularity adjacency (Dict d) resolution directed
  = modularity adjacency (LabelArray lbl) resolution directed.
Proof.
  intros Ha Hd.
  unfold modularity, modularity_run, modularity_body.
  destruct adjacency as [m | m | m |]; simplify_eq/=;
    rewrite !py_bind_ret; unfold csr_matrix, shape; py_run;
    (destruct (bool_decide (n_rows a = n_cols a)); cbn [negb]; [| reflexivity]);
    (destruct (mat_dot_vec _ _); [| reflexivity]);
    rewrite Hd; reflexivity.
Qed.

Lemma modularity_dict_as_array_witness :
  modularity (Csr two_by_two) (Dict {[ 0%Z := 3%Z; 1%Z := 5%Z ]}) 1 false
  = modularity (Csr two_by_two) (LabelArray [3%Z; 5%Z]) 1 false.
Proof.
  apply (modularity_dict_as_array (Csr two_by_two) two_by_two); reflexivity.
Defined.

(** ** What [np.unique] returns *)

Lemma insert_unique_in (x : Z) (u : list Z) :
  x ∈ insert_unique x u /\ (forall y, y ∈ u -> y ∈ insert_unique x u).
Proof.
  induction u as [| z u [IHx IHu]]; simpl.
  - split; [apply list_elem_of_here | easy].
  - destruct (Z.compare_spec x z) as [-> | Hlt | Hgt].
    + split; [apply list_elem_of_here | easy].
    + split; [apply list_elem_of_here |]. intros y Hy. now apply list_elem_of_further.
    + split; [now apply list_elem_of_further |].
      intros y Hy. apply elem_of_cons in Hy as [-> | Hy].
      * apply list_elem_of_here.
      * apply list_elem_of_further. now apply IHu.
Qed.

Lemma np_unique_complete (x : Z) (l : list Z) : x ∈ l -> x ∈ np_unique l.
Proof.
  induction 1 as [x l | x y l Hx IH]; simpl.
  - apply (proj1 (insert_unique_in x (np_unique l))).
  - apply (proj2 (insert_unique_in y (np_unique l))). exact IH.
Qed.

Lemma insert_unique_increasing (x : Z) (u : list Z) :
  strictly_increasing u -> strictly_increasing (insert_unique x u).
Proof.
  induction u as [| z u IH]; simpl; [auto |].
  intros [Hz Hu]. destruct (Z.compare_spec x z) as [-> | Hlt | Hgt]; simpl.
  - auto.
  - repeat split; [| assumption | assumption].
    constructor; [assumption |]. eapply Forall_impl; [exact Hz |].
    intros y Hy. simpl in Hy. lia.
  - split; [| now apply IH]. apply Forall_forall. intros y Hy.
    apply insert_unique_elem in Hy as [-> | Hy]; [lia |].
    rewrite Forall_forall in Hz. now apply Hz.
Qed.

(** [np.unique] returns its values in increasing order, each once. *)
Lemma np_unique_increasing (l : list Z) : strictly_increasing (np_unique l).
Proof.
  induction l as [| x l IH]; simpl; [exact I |]. now apply insert_unique_increasing.
Qed.

Lemma strictly_increasing_NoDup (u : list Z) : strictly_increasing u -> NoDup u.
Proof.
  induction u as [| x u IH]; simpl; [constructor |].
  intros [Hx Hu]. apply NoDup_cons. split; [| now apply IH].
  intros Hin. rewrite Forall_forall in Hx. specialize (Hx x Hin). lia.
Qed.

Lemma index_of_lt (x : Z) (u : list Z) : x ∈ u -> index_of x u < length u.
Proof.
  induction u as [| y u IH]; simpl; intros Hx.
  - now apply elem_of_nil in Hx.
  - destruct (Z.eqb_spec x y) as [_ | Hne]; [lia |].
    apply elem_of_cons in Hx as [-> | Hx]; [congruence |].
    specialize (IH Hx). lia.
Qed.

Lemma index_of_lookup (u : list Z) (i : nat) (y : Z) :
  NoDup u -> u !! i = Some y -> index_of y u = i.
Proof.
  revert i. induction u as [| x u IH]; intros i Hnd Hi; [discriminate |].
  apply NoDup_cons in Hnd as [Hx Hnd].
  destruct i as [| i]; simpl in *.
  - simplify_eq. now rewrite Z.eqb_refl.
  - destruct (Z.eqb_spec y x) as [-> | _].
    + exfalso. apply Hx. eapply list_elem_of_lookup_2. exact Hi.
    + f_equal. now apply IH.
Qed.

(** The inverse array takes exactly the values [0 .. k-1], [k] the number of
    distinct labels. *)
Lemma len_set_inverse (l : list Z) :
  len_set (np_unique_inverse l).2 = length (np_unique l).
Proof.
  unfold len_set, np_unique_inverse. cbn [snd].
  set (u := np_unique l).
  transitivity (length (map Z.of_nat (seq 0%nat (length u))));
    [| now rewrite length_map, length_seq].
  apply Permutation_length, NoDup_Permutation.
  - apply NoDup_remove_dups.
  - apply (NoDup_fmap_2 Z.of_nat), NoDup_seq.
  - intros z. rewrite elem_of_remove_dups. split.
    + intros Hz. apply list_elem_of_fmap in Hz as (x & -> & Hx).
      apply list_elem_of_fmap. exists (index_of x u). split; [reflexivity |].
      apply elem_of_seq. split; [lia |]. simpl.
      apply index_of_lt. now apply np_unique_complete.
    + intros Hz. apply list_elem_of_fmap in Hz as (i & -> & Hi).
      apply elem_of_seq in Hi. destruct (lookup_lt_is_Some_2 u i) as [y Hy]; [lia |].
      apply list_elem_of_fmap. exists y. split.
      * f_equal. symmetry. apply index_of_lookup; [| assumption].
        apply strictly_increasing_NoDup, np_unique_increasing.
      * apply np_unique_elem. eapply list_elem_of_lookup_2. exact Hy.
Qed.

Lemma length_inverse (l : list Z) : length (np_unique_inverse l).2 = length l.
Proof. unfold np_unique_inverse. cbn [snd]. apply length_map. Qed.

Lemma inverse_bounded (l : list Z) (k : nat) :
  len_set (np_unique_inverse l).2 <= k ->
  ~ Exists (fun c => (Z.of_nat k <= c)%Z) (np_unique_inverse l).2
  /\ ~ Exists (fun c => (c < 0)%Z) (np_unique_inverse l).2.
Proof.
  rewrite len_set_inverse. intros Hk. unfold np_unique_inverse. cbn [snd].
  split; intros H; apply Exists_exists in H as (z & Hz & Hbad);
    apply list_elem_of_fmap in Hz as (x & -> & Hx); [| lia].
  pose proof (index_of_lt x (np_unique l) (np_unique_complete x l Hx)). lia.
Qed.

Lemma membership_with_shape (n k : nat) (inv : list Z) :
  length inv = n ->
  ~ Exists (fun c => (Z.of_nat k <= c)%Z) inv ->
  ~ Exists (fun c => (c < 0)%Z) inv ->
  exists rws, coo_matrix (np_ones n) (np_arange n) inv (Some (n, k))
              = Return (Matrix n k rws)
              /\ length rws = n.
Proof.
  intros Hlen Hhigh Hlow. unfold coo_matrix. cbn [mbind outcome_bind].
  rewrite length_np_ones, length_np_arange, Hlen.
  rewrite bool_decide_eq_true_2 by auto. cbn [negb].
  rewrite bool_decide_eq_false_2 by apply np_arange_bounded.
  rewrite bool_decide_eq_false_2 by assumption.
  rewrite bool_decide_eq_false_2 by apply np_arange_nonneg.
  rewrite bool_decide_eq_false_2 by assumption.
  eexists. split; [reflexivity |]. now rewrite length_map, length_seq.
Qed.

Lemma mat_dot_vec_defined (m : matrix) (v : vector) :
  n_cols m = length v ->
  mat_dot_vec m v = Return (map (fun r => sparse_dot_dense r v) (rows m)).
Proof. intros H. unfold mat_dot_vec. now destruct (decide (n_cols m = length v)). Qed.

Lemma mat_dot_defined (a b : matrix) :
  n_cols a = n_rows b ->
  exists rws, mat_dot a b = Return (Matrix (n_rows a) (n_cols b) rws)
              /\ length rws = length (rows a).
Proof.
  intros H. unfold mat_dot. destruct (decide (n_cols a = n_rows b)); [| easy].
  eexists. split; [reflexivity |]. apply length_map.
Qed.

Lemma mat_multiply_defined (a b : matrix) :
  shape a = shape b ->
  exists rws, mat_multiply a b = Return (Matrix (n_rows a) (n_cols a) rws).
Proof.
  intros H. unfold mat_multiply. destruct (decide (shape a = shape b)); [| easy].
  eexists. reflexivity.
Qed.

(** [bimodularity] returns a value on every well-formed csr biadjacency
    with one label per sample and one per feature. *)
Lemma bimodularity_csr_returns (b : matrix) (sl fl : list Z) (resolution : float) :
  well_formed b -> length sl = n_rows b -> length fl = n_cols b ->
  returns (bimodularity (Csr b) sl fl resolution).
Proof.
  intros [Hrows _] Hsl Hfl.
  unfold bimodularity. cbn [arg_shape arg_data_sum arg_matrix shape mbind outcome_bind].
  rewrite mat_dot_vec_defined by now rewrite length_np_ones.
  cbn [mbind outcome_bind].
  rewrite mat_dot_vec_defined by now rewrite length_np_ones.
  cbn [mbind outcome_bind].
  destruct (np_unique_inverse sl) as [us is_] eqn:Hs.
  destruct (np_unique_inverse fl) as [uf if_] eqn:Hf.
  assert (His : is_ = (np_unique_inverse sl).2) by now rewrite Hs.
  assert (Hif : if_ = (np_unique_inverse fl).2) by now rewrite Hf.
  set (k := Nat.max (len_set is_) (len_set if_)).
  destruct (inverse_bounded sl k) as [Hs1 Hs2]; [rewrite <- His; lia |].
  destruct (inverse_bounded fl k) as [Hf1 Hf2]; [rewrite <- Hif; lia |].
  rewrite <- His in Hs1, Hs2. rewrite <- Hif in Hf1, Hf2.
  destruct (membership_with_shape (n_rows b) k is_) as (rs & -> & Hrs);
    [subst is_; now rewrite length_inverse | assumption | assumption |].
  destruct (membership_with_shape (n_cols b) k if_) as (rf & -> & Hrf);
    [subst if_; now rewrite length_inverse | assumption | assumption |].
  cbn [mbind outcome_bind].
  destruct (mat_dot_defined b (Matrix (n_cols b) k rf)) as (rbm & -> & _); [reflexivity |].
  cbn [mbind outcome_bind n_cols].
  destruct (mat_multiply_defined (Matrix (n_rows b) k rs) (Matrix (n_rows b) k rbm))
    as (rp & ->); [reflexivity |].
  cbn [mbind outcome_bind].
  rewrite !mat_dot_vec_defined
    by (unfold np_div_scalar; cbn [n_cols n_rows rows transpose];
        now rewrite !length_map, ?length_seq, ?Hrows).
  cbn [mbind outcome_bind].
  unfold np_dot. cbn [rows transpose n_cols]. rewrite !length_map, !length_seq.
  destruct (decide (k = k)) as [_ | ?]; [| congruence].
  eexists. reflexivity.
Qed.

(** X1. On a well-formed square csr adjacency with a valid partition,
    [modularity] with [directed=True] returns a value: the failure on dense
    arrays is not shared by the csr form (lines 112-113, 44-62). *)
Theorem modularity_csr_directed_returns
    (m : matrix) (partition : partition_arg) (resolution : float) :
  well_formed m -> n_rows m = n_cols m ->
  valid_partition (n_rows m) partition ->
  returns (modularity (Csr m) partition resolution true).
Proof.
  intros Hwf Hsq Hvalid.
  destruct (valid_partition_labels _ _ Hvalid) as (lbl & Hlbl & Hlen & _).
  pose proof (partition_labels_read _ _ _ Hlbl) as Hread.
  assert (Hret : returns (bimodularity (Csr m) lbl lbl resolution))
    by (apply bimodularity_csr_returns; congruence).
  assert (Hcsr : modularity (Csr m) partition resolution true
                 = bimodularity (Csr m) lbl lbl resolution).
  { unfold modularity, modularity_run, modularity_body.
    rewrite py_bind_ret. unfold shape. py_run.
    rewrite bool_decide_eq_true_2 by assumption. cbn [negb].
    rewrite probs_defined by assumption. py_run.
    rewrite Hread. reflexivity. }
  now rewrite Hcsr.
Qed.

Lemma modularity_csr_directed_witness :
  returns (modularity (Csr two_by_two) (LabelArray [0%Z; 1%Z]) 1 true).
Proof.
  apply (modularity_csr_directed_returns two_by_two (LabelArray [0%Z; 1%Z]) 1).
  - exact two_by_two_well_formed.
  - reflexivity.
  - simpl. split; [reflexivity | repeat constructor; lia].
Defined.

(** ** [modularity] past its checks *)

Lemma recognised_adjacency (adjacency : adjacency_arg) (m : matrix) :
  as_matrix adjacency = Some m ->
  match adjacency with
  | Csr a => mret a
  | Sparse a | Ndarray a => mret (csr_matrix a)
  | OtherAdjacency =>
      raise (TypeError "The argument must be a NumPy array or a SciPy Sparse matrix.")
  end = (mret m : py matrix).
Proof. destruct adjacency; intros Ha; inversion Ha; reflexivity. Qed.

(** On a recognised square matrix, [modularity] reads the partition and
    then is [bimodularity] on the original argument when [directed], and the
    undirected score of the normalised matrix otherwise. *)
Lemma modularity_square
    (adjacency : adjacency_arg) (m : matrix) (partition : partition_arg)
    (resolution : float) (directed : bool) :
  as_matrix adjacency = Some m ->
  n_rows m = n_cols m ->
  modularity adjacency partition resolution directed
  = lbl ← read_partition (n_rows m) partition;
    if directed then bimodularity adjacency lbl lbl resolution
    else undirected_score (sparse_div_scalar m (data_sum m))
           (map (fun r => sparse_dot_dense r (np_ones (n_rows m)))
                (rows (sparse_div_scalar m (data_sum m))))
           (n_rows m) lbl resolution.
Proof.
  intros Ha Hsq.
  unfold modularity, modularity_run, modularity_body.
  rewrite (recognised_adjacency _ _ Ha), py_bind_ret. unfold shape. py_run.
  rewrite bool_decide_eq_true_2 by assumption. cbn [negb].
  rewrite probs_defined by assumption. py_run.
  set (norm := sparse_div_scalar m (data_sum m)).
  set (p := map (fun r => sparse_dot_dense r (np_ones (n_rows m))) (rows norm)).
  unfold read_partition.
  destruct partition as [d | a |]; [| | reflexivity].
  - destruct (dict_labels d (np_arange (n_rows m))) as [lbl |]; [| reflexivity].
    cbn [mbind outcome_bind fst snd].
    destruct directed; [reflexivity |].
    unfold undirected_score, mbind, outcome_bind. cbn [shape fst snd].
    destruct (coo_matrix _ _ _ _) as [membership |]; [| reflexivity].
    destruct (mat_dot norm membership) as [nm |]; [| reflexivity].
    destruct (mat_multiply membership nm) as [prod |]; [| reflexivity].
    destruct (mat_dot_vec prod _) as [fitv |]; [| reflexivity].
    destruct (mat_dot_vec (transpose membership) p) as [mp |]; reflexivity.
  - cbn [mbind outcome_bind fst snd].
    destruct directed; [reflexivity |].
    unfold undirected_score, mbind, outcome_bind. cbn [shape fst snd].
    destruct (coo_matrix _ _ _ _) as [membership |]; [| reflexivity].
    destruct (mat_dot norm membership) as [nm |]; [| reflexivity].
    destruct (mat_multiply membership nm) as [prod |]; [| reflexivity].
    destruct (mat_dot_vec prod _) as [fitv |]; [| reflexivity].
    destruct (mat_dot_vec (transpose membership) p) as [mp |]; reflexivity.
Qed.

(** On a recognised matrix that is not square, the shape check decides. *)
Lemma modularity_not_square
    (adjacency : adjacency_arg) (m : matrix) (partition : partition_arg)
    (resolution : float) (directed : bool) :
  as_matrix adjacency = Some m ->
  n_rows m <> n_cols m ->
  modularity adjacency partition resolution directed
  = Raise (ValueError "The adjacency must be a square matrix.").
Proof.
  intros Ha Hne.
  unfold modularity, modularity_run, modularity_body.
  rewrite (recognised_adjacency _ _ Ha), py_bind_ret. unfold shape. py_run.
  rewrite bool_decide_eq_false_2 by assumption. reflexivity.
Qed.

Lemma read_partition_labels (n : nat) (partition : partition_arg) (lbl : list Z) :
  partition_labels n partition = Some lbl -> read_partition n partition = Return lbl.
Proof.
  destruct partition as [d | a |]; simpl; [| congruence | discriminate].
  destruct (dict_labels d (np_arange n)); [congruence | discriminate].
Qed.

(** ** Relabeling the communities of a partition *)






(** ** The undirected score and its membership matrix *)

Lemma max_list_nonneg (l : list Z) : (0 <= max_list l)%Z.
Proof. unfold max_list. induction l as [| x l IH]; simpl; lia. Qed.

Lemma labels_below_inferred (l : list Z) :
  ~ Exists (fun c => (Z.of_nat (Z.to_nat (max_list l + 1)) <= c)%Z) l.
Proof.
  intros H. apply Exists_exists in H as (x & Hx & Hle).
  pose proof (max_list_ge l x Hx). pose proof (max_list_nonneg l). lia.
Qed.

(** With a negative label, the labels being below the number of nodes, the
    membership matrix cannot be built. *)
Lemma undirected_score_negative
    (norm : matrix) (p : vector) (n : nat) (lbl : list Z) (resolution : float) :
  (Z.of_nat n <= int64_max)%Z -> length lbl = n ->
  Forall (fun c => (c < Z.of_nat n)%Z) lbl -> Exists (fun c => (c < 0)%Z) lbl ->
  undirected_score norm p n lbl resolution
  = Raise (ValueError "negative column index found").
Proof.
  intros Hfit Hlen Hall Hneg. unfold undirected_score, coo_matrix.
  destruct n as [| n].
  { destruct lbl; [now apply Exists_nil in Hneg | discriminate]. }
  rewrite (bool_decide_eq_false_2 (np_arange (S n) = [] \/ lbl = [])).
  2:{ intros [H | H]; [| subst lbl; discriminate].
      pose proof (length_np_arange (S n)) as Hl. rewrite H in Hl. discriminate. }
  rewrite (bool_decide_eq_false_2
             (int64_max < max_list (np_arange (S n)) + 1
              \/ int64_max < max_list lbl + 1)%Z)
    by now apply inferred_width_fits.
  cbn [mbind outcome_bind].
  rewrite length_np_ones, length_np_arange, Hlen.
  rewrite bool_decide_eq_true_2 by auto. cbn [negb].
  rewrite max_list_np_arange.
  replace (Z.to_nat (Z.of_nat n + 1)) with (S n) by lia.
  rewrite bool_decide_eq_false_2 by apply np_arange_bounded.
  rewrite bool_decide_eq_false_2 by apply labels_below_inferred.
  rewrite bool_decide_eq_false_2 by apply np_arange_nonneg.
  rewrite bool_decide_eq_true_2 by assumption.
  reflexivity.
Qed.

(** Without a node the membership matrix cannot be built either. *)
Lemma undirected_score_no_node
    (norm : matrix) (p : vector) (lbl : list Z) (resolution : float) :
  undirected_score norm p 0 lbl resolution
  = Raise (ValueError "cannot infer dimensions from zero sized index arrays").
Proof.
  unfold undirected_score, coo_matrix. change (np_arange 0) with (@nil Z).
  rewrite (bool_decide_eq_true_2 ([] = [] \/ lbl = [])) by now left.
  reflexivity.
Qed.

(** ** [bimodularity] and the lengths of its label arrays *)

Lemma coo_matrix_wrong_length
    (data : vector) (row col : list Z) (n k : nat) :
  length col <> length data ->
  coo_matrix data row col (Some (n, k))
  = Raise (ValueError "row, column, and data array must all be the same length").
Proof.
  intros Hlen. unfold coo_matrix. cbn [mbind outcome_bind].
  rewrite bool_decide_eq_false_2 by (intros [_ H]; contradiction). reflexivity.
Qed.

Lemma bimodularity_csr_length_error
    (b : matrix) (sl fl : list Z) (resolution : float) :
  length sl <> n_rows b \/ length fl <> n_cols b ->
  is_value_error (bimodularity (Csr b) sl fl resolution) = true.
Proof.
  intros Hlen.
  unfold bimodularity. cbn [arg_shape arg_data_sum arg_matrix shape mbind outcome_bind].
  rewrite mat_dot_vec_defined by now rewrite length_np_ones.
  cbn [mbind outcome_bind].
  rewrite mat_dot_vec_defined by now rewrite length_np_ones.
  cbn [mbind outcome_bind].
  destruct (np_unique_inverse sl) as [us is_] eqn:Hs.
  destruct (np_unique_inverse fl) as [uf if_] eqn:Hf.
  assert (His : is_ = (np_unique_inverse sl).2) by now rewrite Hs.
  assert (Hif : if_ = (np_unique_inverse fl).2) by now rewrite Hf.
  set (k := Nat.max (len_set is_) (len_set if_)).
  destruct (decide (length sl = n_rows b)) as [Hsl | Hsl].
  - destruct Hlen as [? | Hfl]; [contradiction |].
    destruct (inverse_bounded sl k) as [Hs1 Hs2]; [rewrite <- His; lia |].
    rewrite <- His in Hs1, Hs2.
    destruct (membership_with_shape (n_rows b) k is_) as (rs & -> & Hrs);
      [subst is_; now rewrite length_inverse | assumption | assumption |].
    cbn [mbind outcome_bind].
    rewrite coo_matrix_wrong_length; [reflexivity |].
    subst if_. now rewrite length_inverse, length_np_ones.
  - rewrite (coo_matrix_wrong_length (np_ones (n_rows b)) (np_arange (n_rows b)) is_);
      [reflexivity |].
    subst is_. now rewrite length_inverse, length_np_ones.
Qed.

Lemma value_error_not_returns {A} (o : outcome A) :
  is_value_error o = true -> ~ returns o.
Proof. intros H [a ->]. discriminate. Qed.

(** X5. On a well-formed csr biadjacency, [bimodularity] returns a value
    exactly when it is given one label per sample and one per feature;
    otherwise it raises [ValueError].  No other condition bears on the
    labels: any integers will do. *)
Theorem bimodularity_csr_returns_iff
    (b : matrix) (sample_labels feature_labels : list Z) (resolution : float) :
  well_formed b ->
  (returns (bimodularity (Csr b) sample_labels feature_labels resolution)
   <-> length sample_labels = n_rows b /\ length feature_labels = n_cols b)
  /\ (~ returns (bimodularity (Csr b) sample_labels feature_labels resolution)
      -> is_value_error (bimodularity (Csr b) sample_labels feature_labels resolution)
         = true).
Proof.
  intros Hwf.
  destruct (decide (length sample_labels = n_rows b)) as [Hs | Hs];
    [destruct (decide (length feature_labels = n_cols b)) as [Hf | Hf] |].
  - pose proof (bimodularity_csr_returns b _ _ resolution Hwf Hs Hf) as Hret.
    split; [tauto | intros H; contradiction].
  - assert (Herr := bimodularity_csr_length_error b sample_labels feature_labels
                      resolution (or_intror Hf)).
    split; [| auto]. split; [| tauto].
    intros Hret. now apply value_error_not_returns in Herr.
  - assert (Herr := bimodularity_csr_length_error b sample_labels feature_labels
                      resolution (or_introl Hs)).
    split; [| auto]. split; [| tauto].
    intros Hret. now apply value_error_not_returns in Herr.
Qed.

Lemma two_by_three_well_formed : well_formed two_by_three.
Proof. split; [reflexivity | repeat constructor]. Defined.

Lemma bimodularity_csr_returns_iff_witness :
  (returns (bimodularity (Csr two_by_three) [-4; 8]%Z [3; 3; -1]%Z 1)
   <-> length [-4; 8]%Z = n_rows two_by_three /\ length [3; 3; -1]%Z = n_cols two_by_three)
  /\ (~ returns (bimodularity (Csr two_by_three) [-4; 8]%Z [3; 3; -1]%Z 1)
      -> is_value_error (bimodularity (Csr two_by_three) [-4; 8]%Z [3; 3; -1]%Z 1) = true).
Proof.
  apply bimodularity_csr_returns_iff. exact two_by_three_well_formed.
Defined.

(** X6. The two modes of [modularity] treat a negative community label
    differently.  On a well-formed square csr matrix, with a partition (dict
    or array) that yields one 64-bit label below [n] per node, one of them
    negative, the call returns a value with [directed=True] (the labels are
    ranked first) and raises [ValueError] with [directed=False] (the labels
    are used as column indices). *)
Theorem modularity_negative_label
    (m : matrix) (partition : partition_arg) (lbl : list Z) (resolution : float) :
  well_formed m -> n_rows m = n_cols m -> (Z.of_nat (n_rows m) <= int64_max)%Z ->
  partition_labels (n_rows m) partition = Some lbl -> length lbl = n_rows m ->
  Forall (fun c => (int64_min <= c < Z.of_nat (n_rows m))%Z) lbl ->
  Exists (fun c => (c < 0)%Z) lbl ->
  returns (modularity (Csr m) partition resolution true)
  /\ is_value_error (modularity (Csr m) partition resolution false) = true.
Proof.
  intros Hwf Hsq Hfit Hlbl Hlen Hall Hneg.
  rewrite !(modularity_square (Csr m) m) by (reflexivity || assumption).
  rewrite (read_partition_labels _ _ _ Hlbl).
  cbn [mbind outcome_bind]. split.
  - apply bimodularity_csr_returns; congruence.
  - rewrite undirected_score_negative; [reflexivity | assumption | assumption | | assumption].
    eapply Forall_impl; [exact Hall |]. intros c Hc. simpl in Hc. lia.
Qed.

Lemma modularity_negative_label_witness :
  returns (modularity (Csr two_by_two) (Dict {[ 0%Z := (-1)%Z; 1%Z := 0%Z ]}) 1 true)
  /\ is_value_error
       (modularity (Csr two_by_two) (Dict {[ 0%Z := (-1)%Z; 1%Z := 0%Z ]}) 1 false)
     = true.
Proof.
  apply (modularity_negative_label two_by_two _ [-1; 0]%Z).
  - exact two_by_two_well_formed.
  - reflexivity.
  - vm_compute. discriminate.
  - reflexivity.
  - reflexivity.
  - repeat constructor; vm_compute; discriminate.
  - constructor. lia.
Defined.

(** X8. On a graph without nodes (a recognised 0 x 0 matrix) [modularity]
    with [directed=False] raises [ValueError] for every dict or array
    partition: no membership matrix can be inferred from empty index
    arrays. *)
Theorem modularity_empty_graph
    (adjacency : adjacency_arg) (m : matrix) (partition : partition_arg)
    (resolution : float) :
  as_matrix adjacency = Some m -> n_rows m = 0%nat -> n_cols m = 0%nat ->
  partition <> OtherPartition ->
  is_value_error (modularity adjacency partition resolution false) = true.
Proof.
  intros Ha Hr Hc Hp.
  rewrite (modularity_square adjacency m) by (assumption || congruence).
  rewrite Hr.
  destruct partition as [d | a |]; [| | contradiction];
    cbn [read_partition np_arange seq map dict_labels mbind outcome_bind];
    now rewrite undirected_score_no_node.
Qed.

Lemma modularity_empty_graph_witness :
  is_value_error (modularity (Ndarray (Matrix 0 0 [])) (LabelArray []) 1 false) = true.
Proof.
  apply (modularity_empty_graph (Ndarray (Matrix 0 0 [])) (Matrix 0 0 []));
    [reflexivity | reflexivity | reflexivity | discriminate].
Defined.

(** ** [cocitation_modularity] *)

Lemma recognised_adjacency_outcome (adjacency : adjacency_arg) (m : matrix) :
  as_matrix adjacency = Some m ->
  match adjacency with
  | Csr a => Return a
  | Sparse a | Ndarray a => Return (csr_matrix a)
  | OtherAdjacency =>
      Raise (TypeError "The argument must be a NumPy array or a SciPy Sparse matrix.")
  end = Return m.
Proof. destruct adjacency; intros Ha; inversion Ha; reflexivity. Qed.

(** On a recognised square matrix, lines 155-164 go through; what follows
    reads the partition and scores it. *)
Lemma cocitation_square (adjacency : adjacency_arg) (m : matrix) :
  as_matrix adjacency = Some m ->
  n_rows m = n_cols m ->
  exists normalized_adjacency pou,
    n_cols normalized_adjacency = n_rows m
    /\ length pou = length (rows m)
    /\ forall partition resolution,
         cocitation_modularity adjacency partition resolution
         = lbl ← read_partition (n_rows m) partition;
           cocitation_score normalized_adjacency pou (data_sum m) (n_rows m) lbl
                            resolution.
Proof.
  intros Ha Hsq.
  destruct (mat_dot_defined m
              (reciprocal_data
                 (sparse_diags
                    (np_sqrt (map (fun r => sparse_dot_dense r (np_ones (n_cols m)))
                                  (rows (transpose m))))
                    (n_cols m)))) as (rad & Had & _); [reflexivity |].
  eexists (transpose (Matrix (n_rows m) (n_cols m) rad)),
          (np_div_scalar (map (fun r => sparse_dot_dense r (np_ones (n_rows m))) (rows m))
                         (data_sum m)).
  split; [reflexivity |]. split; [unfold np_div_scalar; now rewrite !length_map |].
  intros partition resolution. unfold cocitation_modularity.
  rewrite (recognised_adjacency_outcome _ _ Ha). cbn [mbind outcome_bind shape].
  rewrite (mat_dot_vec_defined m) by now rewrite length_np_ones.
  cbn [mbind outcome_bind].
  rewrite mat_dot_vec_defined by now rewrite length_np_ones.
  cbn [mbind outcome_bind].
  cbn [n_rows n_cols reciprocal_data sparse_diags] in Had. rewrite Had.
  cbn [mbind outcome_bind]. reflexivity.
Qed.

(** The product of line 157 needs as many columns as rows. *)
Lemma cocitation_not_square
    (adjacency : adjacency_arg) (m : matrix) (partition : partition_arg)
    (resolution : float) :
  as_matrix adjacency = Some m ->
  n_rows m <> n_cols m ->
  cocitation_modularity adjacency partition resolution
  = Raise (ValueError "dimension mismatch").
Proof.
  intros Ha Hne. unfold cocitation_modularity.
  rewrite (recognised_adjacency_outcome _ _ Ha). cbn [mbind outcome_bind shape].
  assert (H : mat_dot_vec m (np_ones (n_rows m)) = Raise (ValueError "dimension mismatch")).
  { unfold mat_dot_vec. rewrite length_np_ones.
    destruct (decide (n_cols m = n_rows m)) as [Heq | _]; [congruence | reflexivity]. }
  now rewrite H.
Qed.

(** X9. [cocitation_modularity] has no shape check of its own, yet every
    recognised matrix that is not square makes it raise [ValueError]
    (a dimension mismatch in the product of line 157), whatever the
    partition, recognised or not; it returns no value. *)
Theorem cocitation_non_square_raises
    (adjacency : adjacency_arg) (m : matrix) (partition : partition_arg)
    (resolution : float) :
  as_matrix adjacency = Some m ->
  n_rows m <> n_cols m ->
  is_value_error (cocitation_modularity adjacency partition resolution) = true
  /\ ~ returns (cocitation_modularity adjacency partition resolution).
Proof.
  intros Ha Hne. rewrite (cocitation_not_square adjacency m) by assumption.
  split; [reflexivity | intros [v Hv]; discriminate].
Qed.

Lemma cocitation_non_square_witness :
  is_value_error (cocitation_modularity (Csr two_by_three) OtherPartition 1) = true
  /\ ~ returns (cocitation_modularity (Csr two_by_three) OtherPartition 1).
Proof.
  apply (cocitation_non_square_raises (Csr two_by_three) two_by_three);
    [reflexivity | simpl; lia].
Defined.

(** X10. [cocitation_modularity] raises [TypeError] for every adjacency
    argument that is neither an [np.ndarray] nor a scipy sparse matrix,
    whatever the partition, and for every partition argument that is
    neither a [dict] nor an [np.ndarray] when the adjacency is a recognised
    square matrix. *)
Theorem cocitation_type_errors
    (adjacency : adjacency_arg) (m : matrix) (partition : partition_arg)
    (resolution : float) :
  cocitation_modularity OtherAdjacency partition resolution
  = Raise (TypeError "The argument must be a NumPy array or a SciPy Sparse matrix.")
  /\ (as_matrix adjacency = Some m -> n_rows m = n_cols m ->
      cocitation_modularity adjacency OtherPartition resolution
      = Raise (TypeError "The partition must be a dictionary or a NumPy array.")).
Proof.
  split; [reflexivity |]. intros Ha Hsq.
  destruct (cocitation_square adjacency m Ha Hsq) as (norm & pou & _ & _ & ->).
  reflexivity.
Qed.

Lemma cocitation_type_errors_witness :
  cocitation_modularity OtherAdjacency (LabelArray [0; 1]%Z) 1
  = Raise (TypeError "The argument must be a NumPy array or a SciPy Sparse matrix.")
  /\ cocitation_modularity (Ndarray two_by_two) OtherPartition 1
     = Raise (TypeError "The partition must be a dictionary or a NumPy array.").
Proof.
  destruct (cocitation_type_errors (Ndarray two_by_two) two_by_two
              (LabelArray [0; 1]%Z) 1) as [H1 H2].
  split; [exact H1 | apply H2; reflexivity].
Defined.

Lemma np_max_defined (l : list Z) :
  l <> [] ->
  exists mx, np_max l = Return mx /\ (forall c, c ∈ l -> (c <= mx)%Z) /\ mx ∈ l.
Proof.
  destruct l as [| x l]; [congruence |]. intros _.
  exists (foldr Z.max x l). split; [reflexivity |].
  induction l as [| y l [IHle IHin]]; simpl.
  - split; [| apply list_elem_of_here].
    intros c Hc. apply list_elem_of_singleton in Hc. lia.
  - split.
    + intros c Hc. apply elem_of_cons in Hc as [-> | Hc].
      * assert (x <= foldr Z.max x l)%Z by (apply IHle, list_elem_of_here). lia.
      * apply elem_of_cons in Hc as [-> | Hc]; [lia |].
        assert (c <= foldr Z.max x l)%Z
          by (apply IHle; now apply list_elem_of_further).
        lia.
    + destruct (Z.max_spec y (foldr Z.max x l)) as [[_ ->] | [_ ->]].
      * apply elem_of_cons in IHin as [Heq | Hin].
        -- rewrite Heq. apply list_elem_of_here.
        -- now do 2 apply list_elem_of_further.
      * apply list_elem_of_further, list_elem_of_here.
Qed.

(** X12. A [dict] partition that lacks node [i], the first one it lacks,
    makes [cocitation_modularity] raise [KeyError(i)] on a recognised square
    matrix of more than [i] nodes (line 167). *)
Theorem cocitation_dict_missing_node
    (adjacency : adjacency_arg) (m : matrix) (d : gmap Z Z) (i : nat)
    (resolution : float) :
  as_matrix adjacency = Some m ->
  n_rows m = n_cols m ->
  i < n_rows m ->
  d !! Z.of_nat i = None ->
  (forall j, j < i -> is_Some (d !! Z.of_nat j)) ->
  cocitation_modularity adjacency (Dict d) resolution = Raise (KeyError (Z.of_nat i)).
Proof.
  intros Ha Hsq Hi Hnone Hsome.
  destruct (cocitation_square adjacency m Ha Hsq) as (norm & pou & _ & _ & ->).
  cbn [read_partition]. unfold np_arange.
  rewrite (dict_labels_missing d 0 (n_rows m) i); [reflexivity | lia | assumption |].
  intros j Hj. apply Hsome. lia.
Qed.

Lemma cocitation_dict_missing_node_witness :
  cocitation_modularity (Csr two_by_two) (Dict {[ 0%Z := 3%Z ]}) 1 = Raise (KeyError 1).
Proof.
  apply (cocitation_dict_missing_node (Csr two_by_two) two_by_two {[ 0%Z := 3%Z ]} 1);
    [reflexivity | reflexivity | simpl; lia | reflexivity |].
  intros j Hj. assert (j = 0%nat) as -> by lia. now exists 3%Z.
Defined.

(** ** Which keys of a dictionary are read *)

Lemma dict_labels_agree (d d' : gmap Z Z) (keys : list Z) :
  (forall k, k ∈ keys -> d !! k = d' !! k) ->
  dict_labels d keys = dict_labels d' keys.
Proof.
  induction keys as [| k keys IH]; intros H; [reflexivity |].
  cbn [dict_labels]. rewrite <- (H k) by apply list_elem_of_here.
  rewrite IH; [reflexivity |]. intros k' Hk'. apply H. now apply list_elem_of_further.
Qed.

(** X13. Of a [dict] partition only the keys [0 .. n-1] are read: two
    dictionaries that agree on the nodes of the graph give the same outcome,
    in [modularity] (both modes) and in [cocitation_modularity], whatever
    else they hold. *)
Theorem dict_partition_keys_read
    (adjacency : adjacency_arg) (m : matrix) (d d' : gmap Z Z)
    (resolution : float) (directed : bool) :
  as_matrix adjacency = Some m ->
  (forall i, i < n_rows m -> d !! Z.of_nat i = d' !! Z.of_nat i) ->
  modularity adjacency (Dict d) resolution directed
  = modularity adjacency (Dict d') resolution directed
  /\ cocitation_modularity adjacency (Dict d) resolution
     = cocitation_modularity adjacency (Dict d') resolution.
Proof.
  intros Ha Hagree.
  assert (Hread : read_partition (n_rows m) (Dict d) = read_partition (n_rows m) (Dict d')).
  { cbn [read_partition]. apply dict_labels_agree. intros k Hk.
    unfold np_arange in Hk. apply list_elem_of_fmap in Hk as (i & -> & Hi).
    apply elem_of_seq in Hi. apply Hagree. lia. }
  destruct (decide (n_rows m = n_cols m)) as [Hsq | Hne].
  - split.
    + rewrite !(modularity_square adjacency m) by assumption. now rewrite Hread.
    + destruct (cocitation_square adjacency m Ha Hsq) as (norm & pou & _ & _ & Hco).
      rewrite !Hco. now rewrite Hread.
  - split.
    + now rewrite !(modularity_not_square adjacency m) by assumption.
    + now rewrite !(cocitation_not_square adjacency m) by assumption.
Qed.

Lemma dict_partition_keys_read_witness :
  modularity (Csr two_by_two) (Dict {[ 0%Z := 3%Z; 1%Z := 5%Z ]}) 1 false
  = modularity (Csr two_by_two) (Dict {[ 0%Z := 3%Z; 1%Z := 5%Z; 7%Z := 2%Z ]}) 1 false
  /\ cocitation_modularity (Csr two_by_two) (Dict {[ 0%Z := 3%Z; 1%Z := 5%Z ]}) 1
     = cocitation_modularity (Csr two_by_two)
         (Dict {[ 0%Z := 3%Z; 1%Z := 5%Z; 7%Z := 2%Z ]}) 1.
Proof.
  apply (dict_partition_keys_read (Csr two_by_two) two_by_two); [reflexivity |].
  intros i Hi. simpl in Hi.
  destruct i as [| [| i]]; [reflexivity | reflexivity | lia].
Defined.

(** ** Which partitions are accepted *)

Lemma dict_labels_lookup (d : gmap Z Z) (keys l : list Z) :
  dict_labels d keys = Return l -> Forall2 (fun k c => d !! k = Some c) keys l.
Proof.
  revert l. induction keys as [| k keys IH]; intros l; cbn [dict_labels].
  - intros H. inversion H. constructor.
  - destruct (d !! k) as [c |] eqn:Hk; [| discriminate].
    destruct (dict_labels d keys) as [cs |]; [| discriminate].
    cbn [mbind outcome_bind]. intros H. inversion H. subst l.
    constructor; [assumption | now apply IH].
Qed.

(** The labels read from a partition are one non-negative label per node
    exactly when the partition is valid. *)
Lemma read_partition_valid (n : nat) (partition : partition_arg) (lbl : list Z) :
  read_partition n partition = Return lbl ->
  length lbl = n -> Forall (fun c => (0 <= c)%Z) lbl ->
  valid_partition n partition.
Proof.
  destruct partition as [d | a |]; cbn [read_partition valid_partition].
  - intros Hd Hlen Hall i Hi.
    apply dict_labels_lookup in Hd.
    assert (Hk : np_arange n !! i = Some (Z.of_nat i)).
    { unfold np_arange. rewrite list_lookup_fmap, lookup_seq_lt by assumption.
      reflexivity. }
    destruct (Forall2_lookup_l _ _ _ _ _ Hd Hk) as (c & Hc & Hdc).
    exists c. split; [assumption |].
    rewrite Forall_forall in Hall. apply Hall. eapply list_elem_of_lookup_2. exact Hc.
  - intros H Hlen Hall. inversion H. subst. auto.
  - discriminate.
Qed.

Lemma not_all_nonneg (l : list Z) :
  ~ Forall (fun c => (0 <= c)%Z) l -> Exists (fun c => (c < 0)%Z) l.
Proof.
  intros H. apply not_Forall_Exists in H; [| apply _].
  eapply Exists_impl; [exact H |]. intros c Hc. simpl in Hc. lia.
Qed.

(** A matrix is built from coordinates only when there are as many columns
    indices as values and none of them is negative. *)
Lemma coo_matrix_returns
    (data : vector) (row col : list Z) (shp : option (nat * nat)) (a : matrix) :
  coo_matrix data row col shp = Return a ->
  length col = length data /\ Forall (fun c => (0 <= c)%Z) col.
Proof.
  intros Ha.
  destruct (decide (length col = length data)) as [Hlen | Hlen].
  - split; [assumption |].
    destruct (decide (Forall (fun c => (0 <= c)%Z) col)) as [Hall | Hnot]; [assumption |].
    exfalso. apply not_all_nonneg in Hnot. revert Ha. unfold coo_matrix.
    destruct shp as [[n k] |]; cbn [mbind outcome_bind];
      repeat (case_bool_decide; cbn [negb mbind outcome_bind]); (discriminate || tauto).
  - exfalso. revert Ha. unfold coo_matrix.
    destruct shp as [[n k] |]; cbn [mbind outcome_bind];
      repeat (case_bool_decide; cbn [negb mbind outcome_bind]); (discriminate || tauto).
Qed.

Lemma undirected_score_defined
    (norm : matrix) (p : vector) (n : nat) (lbl : list Z) (resolution : float) :
  n_rows norm = n -> n_cols norm = n -> length p = n ->
  0 < n -> (Z.of_nat n <= int64_max)%Z -> length lbl = n ->
  Forall (fun c => (0 <= c < Z.of_nat n)%Z) lbl ->
  returns (undirected_score norm p n lbl resolution).
Proof.
  intros Hrows Hcols Hp Hn Hfit Hlen Hall. unfold undirected_score.
  destruct (membership_defined n lbl Hn Hfit Hlen Hall) as (k & rws & -> & Hrws).
  cbn [mbind outcome_bind].
  destruct (mat_dot_defined norm (Matrix n k rws)) as (rnm & -> & _); [exact Hcols |].
  cbn [mbind outcome_bind n_cols].
  destruct (mat_multiply_defined (Matrix n k rws) (Matrix (n_rows norm) k rnm))
    as (rp & ->); [unfold shape; cbn [n_rows n_cols]; congruence |].
  cbn [mbind outcome_bind shape n_rows n_cols snd].
  rewrite !mat_dot_vec_defined
    by (cbn [n_cols n_rows transpose]; now rewrite ?length_np_ones).
  cbn [mbind outcome_bind]. eexists. reflexivity.
Qed.

Lemma undirected_score_returns
    (norm : matrix) (p : vector) (n : nat) (lbl : list Z) (resolution : float) :
  returns (undirected_score norm p n lbl resolution) ->
  length lbl = n /\ Forall (fun c => (0 <= c)%Z) lbl.
Proof.
  intros [v Hv]. unfold undirected_score in Hv.
  destruct (coo_matrix (np_ones n) (np_arange n) lbl None) as [a |] eqn:Ha;
    [| discriminate].
  apply coo_matrix_returns in Ha as [Hlen Hall]. rewrite length_np_ones in Hlen. auto.
Qed.

(** X7. On a recognised, well-formed square matrix with at least one node,
    [modularity] with [directed=False] returns a value for every partition
    (dict or array) that gives every node [0 .. n-1] a community number
    among [0 .. n-1]; and whenever it returns a value, the partition gave
    every node a non-negative label (an array partition has length [n]). *)
Theorem modularity_undirected_returns
    (adjacency : adjacency_arg) (m : matrix) (partition : partition_arg)
    (resolution : float) :
  as_matrix adjacency = Some m ->
  well_formed m -> n_rows m = n_cols m ->
  0 < n_rows m -> (Z.of_nat (n_rows m) <= int64_max)%Z ->
  (community_partition (n_rows m) partition ->
   returns (modularity adjacency partition resolution false))
  /\ (returns (modularity adjacency partition resolution false) ->
      valid_partition (n_rows m) partition).
Proof.
  intros Ha [Hrows _] Hsq Hn Hfit.
  rewrite (modularity_square adjacency m) by assumption.
  split.
  - intros Hcomm.
    destruct (community_partition_labels _ _ Hcomm) as (lbl & Hlbl & Hlen & Hall).
    rewrite (read_partition_labels _ _ _ Hlbl). cbn [mbind outcome_bind].
    apply undirected_score_defined; try assumption; try reflexivity.
    + cbn [n_cols sparse_div_scalar]. congruence.
    + cbn [rows sparse_div_scalar]. now rewrite !length_map.
  - intros Hret.
    destruct (read_partition (n_rows m) partition) as [lbl |] eqn:Hread;
      [| destruct Hret as [v Hv]; discriminate].
    cbn [mbind outcome_bind] in Hret.
    apply undirected_score_returns in Hret as [Hlen Hall].
    now apply (read_partition_valid _ _ lbl).
Qed.

Lemma modularity_undirected_returns_witness :
  returns (modularity (Ndarray two_by_two) (LabelArray [1; 0]%Z) 1 false)
  /\ valid_partition 2%nat (LabelArray [1; 0]%Z).
Proof.
  destruct (modularity_undirected_returns (Ndarray two_by_two) two_by_two
              (LabelArray [1; 0]%Z) 1) as [Hreturns Hvalid].
  - reflexivity.
  - exact two_by_two_well_formed.
  - reflexivity.
  - simpl; lia.
  - vm_compute. discriminate.
  - assert (Hret : returns (modularity (Ndarray two_by_two) (LabelArray [1; 0]%Z) 1 false)).
    { apply Hreturns. simpl. split; [reflexivity | repeat constructor; lia]. }
    split; [exact Hret | exact (Hvalid Hret)].
Defined.

Lemma cocitation_score_defined
    (norm : matrix) (pou : vector) (total : float) (n : nat) (lbl : list Z)
    (resolution : float) :
  n_cols norm = n -> length pou = n ->
  0 < n -> (Z.of_nat n <= int64_max)%Z -> length lbl = n ->
  Forall (fun c => (0 <= c < Z.of_nat n)%Z) lbl ->
  returns (cocitation_score norm pou total n lbl resolution).
Proof.
  intros Hnorm Hpou Hn Hfit Hlen Hall. unfold cocitation_score.
  destruct (np_max_defined lbl) as (mx & -> & Hmx & Hin).
  { intros ->. simpl in Hlen. lia. }
  cbn [mbind outcome_bind].
  rewrite Forall_forall in Hall.
  assert (0 <= mx < Z.of_nat n)%Z by now apply Hall.
  rewrite wrap_int64_fits by (unfold int64_min; lia).
  unfold shape_dim. destruct (Z.ltb_spec (mx + 1) 0) as [? | _]; [lia |].
  cbn [mbind outcome_bind].
  destruct (membership_with_shape n (Z.to_nat (mx + 1)) lbl)
    as (rs & -> & Hrs); [assumption | | |].
  { intros Hex. apply Exists_exists in Hex as (c & Hc & Hle).
    specialize (Hmx c Hc). lia. }
  { intros Hex. apply Exists_exists in Hex as (c & Hc & Hneg).
    specialize (Hall c Hc). lia. }
  cbn [mbind outcome_bind].
  destruct (mat_dot_defined norm (Matrix n (Z.to_nat (mx + 1)) rs))
    as (rnm & -> & _); [exact Hnorm |].
  cbn [mbind outcome_bind].
  rewrite mat_dot_vec_defined by (cbn [n_cols transpose n_rows]; congruence).
  cbn [mbind outcome_bind]. eexists. reflexivity.
Qed.

Lemma cocitation_score_returns
    (norm : matrix) (pou : vector) (total : float) (n : nat) (lbl : list Z)
    (resolution : float) :
  returns (cocitation_score norm pou total n lbl resolution) ->
  length lbl = n /\ Forall (fun c => (0 <= c)%Z) lbl.
Proof.
  intros [v Hv]. unfold cocitation_score in Hv.
  destruct (np_max lbl) as [mx |]; [| discriminate].
  cbn [mbind outcome_bind] in Hv.
  destruct (shape_dim (wrap_int64 (mx + 1))) as [k |]; [| discriminate].
  cbn [mbind outcome_bind] in Hv.
  destruct (coo_matrix (np_ones n) (np_arange n) lbl (Some (n, k))) as [a |] eqn:Ha;
    [| discriminate].
  apply coo_matrix_returns in Ha as [Hlen Hall]. rewrite length_np_ones in Hlen. auto.
Qed.

(** X11. On every recognised adjacency - dense arrays included - that is
    well formed, square and has at least one node, [cocitation_modularity]
    returns a value for every partition (dict or array) that gives every
    node [0 .. n-1] a community number among [0 .. n-1]; and whenever it
    returns a value, the partition gave every node a non-negative label (an
    array partition has length [n]). *)
Theorem cocitation_returns
    (adjacency : adjacency_arg) (m : matrix) (partition : partition_arg)
    (resolution : float) :
  as_matrix adjacency = Some m ->
  well_formed m -> n_rows m = n_cols m ->
  0 < n_rows m -> (Z.of_nat (n_rows m) <= int64_max)%Z ->
  (community_partition (n_rows m) partition ->
   returns (cocitation_modularity adjacency partition resolution))
  /\ (returns (cocitation_modularity adjacency partition resolution) ->
      valid_partition (n_rows m) partition).
Proof.
  intros Ha [Hrows _] Hsq Hn Hfit.
  destruct (cocitation_square adjacency m Ha Hsq) as (norm & pou & Hnorm & Hpou & ->).
  split.
  - intros Hcomm.
    destruct (community_partition_labels _ _ Hcomm) as (lbl & Hlbl & Hlen & Hall).
    rewrite (read_partition_labels _ _ _ Hlbl). cbn [mbind outcome_bind].
    apply cocitation_score_defined; try assumption. congruence.
  - intros Hret.
    destruct (read_partition (n_rows m) partition) as [lbl |] eqn:Hread;
      [| destruct Hret as [v Hv]; discriminate].
    cbn [mbind outcome_bind] in Hret.
    apply cocitation_score_returns in Hret as [Hlen Hall].
    now apply (read_partition_valid _ _ lbl).
Qed.

Lemma cocitation_returns_witness :
  returns (cocitation_modularity (Ndarray two_by_two) (LabelArray [1; 0]%Z) 1)
  /\ valid_partition 2%nat (LabelArray [1; 0]%Z).
Proof.
  destruct (cocitation_returns (Ndarray two_by_two) two_by_two
              (LabelArray [1; 0]%Z) 1) as [Hreturns Hvalid].
  - reflexivity.
  - exact two_by_two_well_formed.
  - reflexivity.
  - simpl; lia.
  - vm_compute. discriminate.
  - assert (Hret : returns (cocitation_modularity (Ndarray two_by_two)
                              (LabelArray [1; 0]%Z) 1)).
    { apply Hreturns. simpl. split; [reflexivity | repeat constructor; lia]. }
    split; [exact Hret | exact (Hvalid Hret)].
Defined.

(** The largest 64-bit label: [labels.max() + 1] wraps to [-2^63], and the
    constructor of line 173 refuses the negative dimension. *)
Example cocitation_largest_label :
  wrap_int64 (9223372036854775807 + 1) = int64_min
  /\ is_value_error
       (cocitation_modularity (Csr two_by_two) (LabelArray [0; 9223372036854775807]%Z) 1)
     = true.
Proof. split; vm_compute; reflexivity. Qed.

Lemma partition_labels_of_read (n : nat) (partition : partition_arg) (lbl : list Z) :
  read_partition n partition = Return lbl -> partition_labels n partition = Some lbl.
Proof.
  destruct partition as [d | a |]; cbn [read_partition partition_labels].
  - now intros ->.
  - intros H. inversion H. reflexivity.
  - discriminate.
Qed.

(** X14. On a well-formed square csr matrix, [modularity] with
    [directed=True] returns a value exactly when the partition yields one
    label per node - a dict holding every node [0 .. n-1], or an array of
    length [n] - whatever integers the labels are. *)
Theorem modularity_directed_csr_returns_iff
    (m : matrix) (partition : partition_arg) (resolution : float) :
  well_formed m -> n_rows m = n_cols m ->
  (returns (modularity (Csr m) partition resolution true)
   <-> exists lbl, partition_labels (n_rows m) partition = Some lbl
                   /\ length lbl = n_rows m).
Proof.
  intros Hwf Hsq.
  rewrite (modularity_square (Csr m) m) by (reflexivity || assumption).
  split.
  - intros Hret.
    destruct (read_partition (n_rows m) partition) as [lbl |] eqn:Hread;
      [| destruct Hret as [v Hv]; discriminate].
    cbn [mbind outcome_bind] in Hret.
    exists lbl. split; [now apply partition_labels_of_read |].
    destruct (decide (length lbl = n_rows m)) as [Hlen | Hlen]; [assumption |].
    exfalso. eapply value_error_not_returns; [| exact Hret].
    apply bimodularity_csr_length_error. now left.
  - intros (lbl & Hlbl & Hlen).
    rewrite (read_partition_labels _ _ _ Hlbl). cbn [mbind outcome_bind].
    apply bimodularity_csr_returns; congruence.
Qed.

Lemma modularity_directed_csr_returns_iff_witness :
  returns (modularity (Csr two_by_two) (LabelArray [-5; 12]%Z) 1 true)
  <-> exists lbl, partition_labels 2%nat (LabelArray [-5; 12]%Z) = Some lbl
                  /\ length lbl = 2%nat.
Proof.
  apply (modularity_directed_csr_returns_iff two_by_two);
    [exact two_by_two_well_formed | reflexivity].
Defined.

(** * Properties of the embedding engine *)

Module ForceAtlasFacts.
Import ForceAtlas.

Lemma length_vadd (u v : vector) (d : nat) :
  length u = d -> length v = d -> length (vadd u v) = d.
Proof. intros Hu Hv. unfold vadd. rewrite length_zip_with. lia. Qed.

Lemma length_along (c : float) (p q : vector) (d : nat) :
  length p = d -> length q = d -> length (along c p q) = d.
Proof.
  intros Hp Hq. unfold along, vscale, vsub.
  rewrite length_map, length_zip_with. lia.
Qed.

Lemma length_vsum (d : nat) (vs : list vector) :
  Forall (fun v => length v = d) vs -> length (vsum d vs) = d.
Proof.
  unfold vsum. generalize (length_replicate d 0%float). fold (vzero d).
  generalize (vzero d) as acc.
  induction vs as [| v vs IH]; intros acc Hacc Hvs; simpl; [assumption |].
  apply Forall_cons in Hvs as [Hv Hvs].
  apply IH; [| assumption]. now apply length_vadd.
Qed.

Lemma Forall_filter_body (P : body -> Prop) (f : body -> bool) (bs : list body) :
  Forall P bs -> Forall P (filter f bs).
Proof.
  rewrite !Forall_forall. intros H b Hb.
  apply list_elem_of_filter in Hb as [_ Hb]. now apply H.
Qed.

Lemma build_planar (depth : nat) (x0 y0 w : float) (bs : list body) :
  Forall (fun b : body => length b.2.2 = 2%nat) bs -> planar (build depth x0 y0 w bs).
Proof.
  revert x0 y0 w bs. induction depth as [| depth IH]; intros x0 y0 w bs Hbs.
  - destruct bs as [| b [| b' bs]]; exact Hbs.
  - destruct bs as [| b [| b' bs]]; [exact Hbs | exact Hbs |].
    cbn [build planar]. split; [reflexivity |].
    repeat split; apply IH; now apply Forall_filter_body.
Qed.

Section Shape.
Variable repulsion : bool -> float -> float -> float -> float.
Variable attraction : bool -> bool -> float -> float -> float -> float.
Variable gravity : bool -> float -> float -> float.
Variable global_speed : float -> float -> float -> float.
Variable local_speed : float -> float -> float -> float.
Variable is_far : float -> float -> bool.
Variable max_depth : nat.
Variable random : nat -> float.
Variable o : options.

Let d := n_components o.

Lemma pair_forces_length (k : body -> float) (bs : list body) (b : body) (n : nat) :
  Forall (fun b' : body => length b'.2.2 = n) bs -> length b.2.2 = n ->
  Forall (fun v => length v = n) (map (fun b' => along (k b') b.2.2 b'.2.2) bs).
Proof.
  intros Hbs Hb. apply Forall_fmap. eapply Forall_impl; [exact Hbs |].
  intros b' Hb'. simpl. now apply length_along.
Qed.

Lemma exact_repulsion_length (bs : list body) (b : body) :
  Forall (fun b' : body => length b'.2.2 = d) bs -> length b.2.2 = d ->
  length (exact_repulsion repulsion o bs b) = d.
Proof.
  intros Hbs Hb. unfold exact_repulsion. apply length_vsum.
  apply (pair_forces_length
           (fun b' => repulsion (no_overlapping o) b.2.1 b'.2.1 (distance b.2.2 b'.2.2)));
    [| assumption].
  now apply Forall_filter_body.
Qed.

Lemma tree_repulsion_length (c : cell) (b : body) :
  planar c -> length b.2.2 = 2%nat ->
  length (tree_repulsion repulsion is_far o c b) = 2%nat.
Proof.
  intros Hc Hb. induction c as [bs | m cen w c1 IH1 c2 IH2 c3 IH3 c4 IH4]; simpl.
  - apply length_vsum.
    apply (pair_forces_length
             (fun b' => repulsion (no_overlapping o) b.2.1 b'.2.1 (distance b.2.2 b'.2.2)));
      [| assumption].
    now apply Forall_filter_body.
  - destruct Hc as (Hcen & H1 & H2 & H3 & H4).
    destruct (is_far w (distance b.2.2 cen)).
    + now apply length_along.
    + repeat apply length_vadd; auto.
Qed.

Lemma attractive_force_length (weights : vector) (bs : list body) (b : body) :
  Forall (fun b' : body => length b'.2.2 = d) bs -> length b.2.2 = d ->
  length (attractive_force attraction o weights bs b) = d.
Proof.
  intros Hbs Hb. unfold attractive_force. apply length_vsum.
  apply Forall_fmap, Forall_forall. intros [w b'] Hwb.
  apply list_elem_of_filter in Hwb as [_ Hwb]. apply elem_of_zip_r in Hwb.
  rewrite Forall_forall in Hbs. simpl. apply length_along; auto.
Qed.

Lemma gravity_force_length (b : body) :
  length b.2.2 = d -> length (gravity_force gravity o b) = d.
Proof. intros Hb. unfold gravity_force, vscale. now rewrite length_map. Qed.

Hypothesis planar_index : barnes_hut o = true -> d = 2%nat.

Lemma force_length (adjacency : matrix) (bs : list body) (b : body) :
  Forall (fun b' : body => length b'.2.2 = d) bs -> length b.2.2 = d ->
  length (force repulsion attraction gravity is_far o adjacency
            (if barnes_hut o then Some (spatial_index max_depth bs) else None) bs b) = d.
Proof.
  intros Hbs Hb. unfold force. repeat apply length_vadd.
  - destruct (barnes_hut o) eqn:Hbh.
    + rewrite (planar_index eq_refl) in *. apply tree_repulsion_length; [| assumption].
      now apply build_planar.
    + now apply exact_repulsion_length.
  - now apply attractive_force_length.
  - now apply gravity_force_length.
Qed.

Lemma length_masses (adjacency : matrix) : length (masses adjacency) = n_rows adjacency.
Proof. unfold masses. now rewrite length_map, length_seq. Qed.

Lemma bodies_shape (adjacency : matrix) (pos : list vector) :
  has_shape (n_rows adjacency) d pos ->
  length (bodies adjacency pos) = n_rows adjacency
  /\ Forall (fun b : body => length b.2.2 = d) (bodies adjacency pos).
Proof.
  intros [Hn Hd]. unfold bodies. split.
  - rewrite !length_zip_with, length_seq, length_masses, Hn. lia.
  - apply Forall_forall. intros [u [m p]] Hb.
    apply elem_of_zip_r, elem_of_zip_r in Hb.
    rewrite Forall_forall in Hd. now apply Hd.
Qed.

(** One iteration keeps the shape of the position table and leaves one
    force per node. *)
Lemma step_shape (adjacency : matrix) (s : state) :
  has_shape (n_rows adjacency) d (position s) ->
  length (previous s) = n_rows adjacency ->
  let s' := step repulsion attraction gravity global_speed local_speed is_far max_depth
                 o adjacency s in
  has_shape (n_rows adjacency) d (position s')
  /\ length (previous s') = n_rows adjacency.
Proof.
  intros Hpos Hprev.
  destruct (bodies_shape adjacency (position s) Hpos) as [Hlen Hbs].
  unfold step. cbn [position previous]. set (bs := bodies adjacency (position s)) in *.
  set (forces := map _ bs).
  assert (Hforces : length forces = n_rows adjacency)
    by (unfold forces; now rewrite length_map).
  assert (Hfd : Forall (fun f => length f = d) forces).
  { unfold forces. apply Forall_fmap, Forall_forall. intros b Hb. simpl.
    apply force_length; [assumption |]. rewrite Forall_forall in Hbs. now apply Hbs. }
  split; [split |]; [| | assumption].
  - rewrite !length_zip_with, Hlen, Hforces, Hprev. lia.
  - apply Forall_forall. intros v Hv.
    apply elem_of_zip_with in Hv as ([b f] & sw & -> & Hbf & _).
    pose proof (elem_of_zip_l _ _ _ _ Hbf) as Hb.
    pose proof (elem_of_zip_r _ _ _ _ Hbf) as Hf.
    rewrite Forall_forall in Hbs. rewrite Forall_forall in Hfd.
    apply length_vadd; [now apply Hbs |].
    unfold vscale. rewrite length_map. now apply Hfd.
Qed.

Lemma iterate_shape (n_iter : nat) (adjacency : matrix) (s : state) :
  has_shape (n_rows adjacency) d (position s) ->
  length (previous s) = n_rows adjacency ->
  has_shape (n_rows adjacency) d
    (position (iterate repulsion attraction gravity global_speed local_speed is_far
                       max_depth o n_iter adjacency s)).
Proof.
  revert s. induction n_iter as [| k IH]; intros s Hpos Hprev; simpl; [assumption |].
  destruct (step_shape adjacency s Hpos Hprev) as [Hpos' Hprev'].
  now apply IH.
Qed.

Lemma default_positions_shape (n : nat) :
  has_shape n d (default_positions random n d).
Proof.
  unfold default_positions. split.
  - now rewrite length_map, length_seq.
  - apply Forall_fmap, Forall_forall. intros u _. simpl.
    now rewrite length_map, length_seq.
Qed.
End Shape.

(** C2. For every option combination in which [n_components] is 2 whenever
    [barnes_hut] is set (with 2 or 3 components: every combination but
    Barnes-Hut in 3-D), the constructor succeeds, and [fit_transform] on the
    square adjacency of an [n]-node graph returns a position table of shape
    [(n, n_components)], whatever the number of iterations, the force
    magnitudes and the random generator. *)
Theorem fit_transform_shape
    (repulsion : bool -> float -> float -> float -> float)
    (attraction : bool -> bool -> float -> float -> float -> float)
    (gravity : bool -> float -> float -> float)
    (global_speed local_speed : float -> float -> float -> float)
    (is_far : float -> float -> bool) (max_depth : nat) (random : nat -> float)
    (o : options) (adjacency : matrix) (n_iter : nat) :
  (barnes_hut o = true -> n_components o = 2%nat) ->
  n_rows adjacency = n_cols adjacency ->
  exists self pos,
    ForceAtlas2 o = Ok self
    /\ fit_transform repulsion attraction gravity global_speed local_speed is_far
                     max_depth random self adjacency n_iter = Ok (Some pos)
    /\ has_shape (n_rows adjacency) (n_components o) pos.
Proof.
  intros Hconf Hsq.
  assert (Hinit : ForceAtlas2 o = Ok (Engine o None)).
  { unfold ForceAtlas2. destruct (barnes_hut o); [| reflexivity].
    rewrite (Hconf eq_refl). reflexivity. }
  eexists _, _. split; [exact Hinit |].
  unfold fit_transform, fit. cbn [config embedding_].
  rewrite <- Hsq, Nat.eqb_refl. cbn [negb embedding_]. split; [reflexivity |].
  apply iterate_shape; cbn [position previous].
  - assumption.
  - apply default_positions_shape.
  - apply length_replicate.
Qed.

(** C3. Whatever the other options, constructing the engine with
    [n_components = 3] and [barnes_hut = True] raises the configuration
    error. *)
Theorem barnes_hut_3d_rejected (lin_log no_hubs no_overlapping strong_gravity : bool) :
  ForceAtlas2 (Options 3 lin_log no_hubs no_overlapping true strong_gravity)
  = Error ConfigurationConflictError.
Proof. reflexivity. Qed.

(** C4. Whatever the engine, the graph and the number of iterations, [fit]
    with a [pos_init] whose shape is not [(n_nodes, n_components)] raises
    the shape error. *)
Theorem fit_pos_init_mismatch
    (repulsion : bool -> float -> float -> float -> float)
    (attraction : bool -> bool -> float -> float -> float -> float)
    (gravity : bool -> float -> float -> float)
    (global_speed local_speed : float -> float -> float -> float)
    (is_far : float -> float -> bool) (max_depth : nat) (random : nat -> float)
    (self : engine) (adjacency pos_init : matrix) (n_iter : nat) :
  shape pos_init <> (n_rows adjacency, n_components (config self)) ->
  fit repulsion attraction gravity global_speed local_speed is_far max_depth random
      self adjacency (Some pos_init) n_iter
  = Error InputShapeError.
Proof.
  intros Hshape. unfold fit.
  destruct (negb (n_rows adjacency =? n_cols adjacency)%nat); [reflexivity |].
  now rewrite bool_decide_eq_false_2.
Qed.

Lemma fit_transform_shape_witness :
  exists self pos,
    ForceAtlas2 (Options 2 false false false true false) = Ok self
    /\ fit_transform demo_repulsion demo_attraction demo_gravity demo_global_speed
                     demo_local_speed demo_is_far 8 demo_random self small_graph 3
       = Ok (Some pos)
    /\ has_shape 5 2 pos.
Proof.
  apply (fit_transform_shape demo_repulsion demo_attraction demo_gravity
           demo_global_speed demo_local_speed demo_is_far 8 demo_random
           (Options 2 false false false true false) small_graph 3);
    reflexivity.
Defined.

(** [ForceAtlas2().fit(adjacency, pos_init=np.ones((5, 7)))] *)
Lemma fit_pos_init_mismatch_witness :
  fit demo_repulsion demo_attraction demo_gravity demo_global_speed demo_local_speed
      demo_is_far 8 demo_random (Engine default_options None) small_graph
      (Some (Matrix 5 7 (replicate 5 (replicate 7 1)))) 50
  = Error InputShapeError.
Proof.
  apply fit_pos_init_mismatch. cbn. intros H. discriminate H.
Defined.

(** The six option combinations of the test (test_force_atlas.py, lines
    14-40) on a 5-node graph, and the error the tests expect. *)
Example test_options_shapes :
  Forall (fun o => match demo_fit_transform o small_graph 2 with
                   | Ok (Some pos) => length pos = 5%nat
                                      /\ Forall (fun p => length p = 2%nat) pos
                   | _ => False
                   end)
         [ default_options;
           Options 2 true false false false false;
           Options 2 false true false false false;
           Options 2 false false true false false;
           Options 2 false false false true false;
           Options 2 false false false false true ].
Proof. repeat constructor. Qed.

Example test_errors_value_error :
  match ForceAtlas2 (Options 3 false false false true false) with
  | Error e => as_exception e = ValueError "ConfigurationConflictError"
  | Ok _ => False
  end.
Proof. reflexivity. Qed.
End ForceAtlasFacts.
